(** * TensorCompareKernel: min/max-with-index reductions, where, isposinf/isneginf

    A shallow embedding of aten/src/ATen/native/cpu/TensorCompareKernel.cpp.

    - Element values: integers as [Z], booleans as [bool], IEEE-754 floats as
      the Standard Library's [spec_float] (comparisons by [SFcompare], which
      is false as soon as an operand is NaN), complex numbers as a pair of
      floats.
    - A pointer into a buffer is an accessor [Z -> T] relative to the
      pointed-to element, so that [self_data[i * self_dim_stride]] reads
      [self_data (i * self_dim_stride)].
    - Tensors carry their element type tag, sizes, strides, storage offset and
      a storage; the two output tensors are threaded through a small
      state-and-error monad. *)

From Stdlib Require Import ZArith Bool Lia.
From Stdlib Require Import Floats.SpecFloat.
From stdpp Require Import base list.

Local Open Scope Z_scope.

(* ===================================================================== *)
(** ** Element domains *)
(* ===================================================================== *)

(** What the lane lambdas of [min_kernel_impl] and [max_kernel_impl] use of
    [scalar_t]: [zabs<scalar_t, value_t>], [operator>=] and [operator<=] on
    [value_t], and [_isnan<scalar_t>]. *)
Class ScalarOps (scalar_t value_t : Type) := {
  zabs : scalar_t -> value_t;
  geb : value_t -> value_t -> bool;
  leb : value_t -> value_t -> bool;
  _isnan : scalar_t -> bool
}.

(** A key is ordered when it compares to itself; under IEEE comparison this
    is exactly "not NaN". *)
Definition ordered {T V} `{ScalarOps T V} (k : V) : bool := geb k k.

(** The order laws an element domain satisfies. *)
Class ScalarLaws (T V : Type) `{ScalarOps T V} := {
  geb_total : forall a b : V, ordered a = true -> ordered b = true ->
                              geb a b = true \/ geb b a = true;
  geb_trans : forall a b c : V, geb a b = true -> geb b c = true -> geb a c = true;
  leb_geb : forall a b : V, leb a b = geb b a;
  nonnan_ordered : forall v : T, _isnan v = false -> ordered (zabs v) = true
}.

(** The same domain with [>=] and [<=] exchanged: [max_kernel_impl] is
    [min_kernel_impl] read in this domain. *)
Definition dual_ops {T V} (o : ScalarOps T V) : ScalarOps T V :=
  {| zabs := @zabs _ _ o; geb := @leb _ _ o; leb := @geb _ _ o; _isnan := @_isnan _ _ o |}.

(** *** Integral domains (Byte, Char, Short, Int, Long) *)

(** Modelled from the spec: [zabs] (zmath.h) and [_isnan] (NumericUtils.h)
    are not under src/.  The ordering key is the identity for real-valued
    domains, and a value of an integer domain is never NaN. *)
#[export] Instance int_ops : ScalarOps Z Z :=
  {| zabs := fun z => z; geb := Z.geb; leb := Z.leb; _isnan := fun _ => false |}.

(** *** Bool *)

(** Modelled from the spec: [zabs] and [_isnan] as for the integral domains;
    [bool] operands of [>=] and [<=] are promoted to [int] (false is 0, true
    is 1). *)
#[export] Instance bool_ops : ScalarOps bool bool :=
  {| zabs := fun b => b;
     geb := fun a b => Z.geb (Z.b2z a) (Z.b2z b);
     leb := fun a b => Z.leb (Z.b2z a) (Z.b2z b);
     _isnan := fun _ => false |}.

(** *** Floating point (Float, Double; Half and BFloat16 where dispatched) *)
Definition is_nan (f : spec_float) : bool :=
  match f with S754_nan => true | _ => false end.

Definition is_inf (f : spec_float) : bool :=
  match f with S754_infinity _ => true | _ => false end.

(** Modelled from the spec: [zabs] and [_isnan] are not under src/.  The
    ordering key is the identity and [_isnan] is [std::isnan]; [a >= b] is
    the IEEE comparison, i.e. [b <= a], false as soon as an operand is NaN. *)
#[export] Instance float_ops : ScalarOps spec_float spec_float :=
  {| zabs := fun f => f;
     geb := fun a b => SFleb b a;
     leb := fun a b => SFleb a b;
     _isnan := is_nan |}.

(** *** Complex (ComplexFloat, ComplexDouble) *)
Record complex := Complex { real : spec_float; imag : spec_float }.

(** Modelled from the spec: [zabs] and [_isnan] are not under src/.  The
    ordering key of a complex value is its magnitude, [std::abs], taken as
    the parameter [cabs]; a complex value is NaN when either component is. *)
Definition complex_ops (cabs : spec_float -> spec_float -> spec_float)
  : ScalarOps complex spec_float :=
  {| zabs := fun z => cabs (real z) (imag z);
     geb := fun a b => SFleb b a;
     leb := fun a b => SFleb a b;
     _isnan := fun z => is_nan (real z) || is_nan (imag z) |}.

(** Modelled from the spec: [std::abs] of a complex number is not under
    src/.  The magnitude in the format given by [prec] and [emax], as
    IEC 60559 [hypot] of the two components: infinite as soon as a component
    is infinite (even when the other is NaN), otherwise NaN when a component
    is NaN, the absolute value of the other component when one is zero, and
    otherwise the square root of the sum of the squares.  The sum of the
    squares is formed exactly, as an integer multiple of a power of two, and
    only the square root is rounded: no intermediate square overflows or
    underflows, and the result is rounded once. *)
Definition hypot (prec emax : Z) (x y : spec_float) : spec_float :=
  if is_inf x || is_inf y then S754_infinity false
  else if is_nan x || is_nan y then S754_nan
  else
    match x, y with
    | S754_finite _ mx ex, S754_finite _ my ey =>
        let e := Z.min ex ey in
        let X := (shl_align mx ex e).1 in
        let Y := (shl_align my ey e).1 in
        SFsqrt prec emax (S754_finite false (X * X + Y * Y)%positive (2 * e))
    | S754_finite _ m e, _ => S754_finite false m e
    | _, S754_finite _ m e => S754_finite false m e
    | _, _ => S754_zero false
    end.

Definition cabs64 : spec_float -> spec_float -> spec_float := hypot 53 1024.
Definition cabs32 : spec_float -> spec_float -> spec_float := hypot 24 128.

(** Doubles from integers, for examples. *)
Definition double_of_Z (z : Z) : spec_float := binary_normalize 53 1024 z 0 false.

(* ===================================================================== *)
(** ** The lane scans (the lambdas of min_kernel_impl and max_kernel_impl) *)
(* ===================================================================== *)

Section LaneScan.
Context {T V : Type} {ops : ScalarOps T V}.
Variable self_dim_size : Z.
Variable self_data : Z -> T.
Variable self_dim_stride : Z.

(** The [for] loop of the min lambda from iteration [i] on, [fuel] being
    the number of iterations left; [break] returns at once. *)
Fixpoint min_loop (fuel : nat) (i : Z) (min_number : T) (index : Z) : T * Z :=
  match fuel with
  | O => (min_number, index)
  | S fuel' =>
      let value := self_data (i * self_dim_stride) in
      if negb (geb (zabs value) (zabs min_number)) then
        if _isnan value then (value, i)
        else min_loop fuel' (i + 1) value i
      else min_loop fuel' (i + 1) min_number index
  end.

(** The [for] loop of the max lambda. *)
Fixpoint max_loop (fuel : nat) (i : Z) (max_number : T) (index : Z) : T * Z :=
  match fuel with
  | O => (max_number, index)
  | S fuel' =>
      let value := self_data (i * self_dim_stride) in
      if negb (leb (zabs value) (zabs max_number)) then
        if _isnan value then (value, i)
        else max_loop fuel' (i + 1) value i
      else max_loop fuel' (i + 1) max_number index
  end.

(** The values the lambdas store through [result_data] and [indice_data]. *)
Definition min_lane : T * Z :=
  min_loop (Z.to_nat self_dim_size) 0 (self_data 0) 0.

Definition max_lane : T * Z :=
  max_loop (Z.to_nat self_dim_size) 0 (self_data 0) 0.
End LaneScan.

(* ===================================================================== *)
(** ** Tensors *)
(* ===================================================================== *)

(** Modelled from the spec: [c10::ScalarType] is not under src/; the element
    type tags of the dispatch macros. *)
Inductive ScalarType :=
  | Byte | Char | Short | Int | Long | Half | Float | Double
  | ComplexHalf | ComplexFloat | ComplexDouble | Bool
  | QInt8 | QUInt8 | QInt32 | BFloat16.

#[export] Instance ScalarType_eq_dec : EqDecision ScalarType.
Proof. solve_decision. Defined.

Definition kLong : ScalarType := Long.

(** What a storage cell holds. *)
Inductive Scalar :=
  | IntV (z : Z)
  | BoolV (b : bool)
  | FloatV (f : spec_float)
  | ComplexV (z : complex).

(** Reading a cell at a C++ type, as the casts [(scalar_t* )] of the loops
    do.  A cell of another type has no defined reading; a default stands
    for it. *)
Definition as_int (s : Scalar) : Z := match s with IntV z => z | _ => 0 end.
Definition as_bool (s : Scalar) : bool := match s with BoolV b => b | _ => false end.
Definition as_float (s : Scalar) : spec_float :=
  match s with FloatV f => f | _ => S754_zero false end.
Definition as_complex (s : Scalar) : complex :=
  match s with ComplexV z => z | _ => Complex (S754_zero false) (S754_zero false) end.

(** Sizes and strides count elements; a storage maps element offsets to
    cells.  Buffer management is a collaborator outside src/: [allocate]
    stands for what it does when this tensor is resized to the given sizes,
    the cells of the backing storage afterwards, whose contents are not
    specified, or nothing when the allocation fails. *)
Record Tensor := mkTensor {
  scalar_type : ScalarType;
  sizes : list Z;
  strides : list Z;
  storage_offset : Z;
  storage : Z -> Scalar;
  allocate : list Z -> option (Z -> Scalar)
}.

Definition ndimension (t : Tensor) : Z := Z.of_nat (length (sizes t)).

Definition set_shape (t : Tensor) (sz st : list Z) : Tensor :=
  mkTensor (scalar_type t) sz st (storage_offset t) (storage t) (allocate t).

(** [storage[p] = v]. *)
Definition store (t : Tensor) (p : Z) (v : Scalar) : Tensor :=
  mkTensor (scalar_type t) (sizes t) (strides t) (storage_offset t)
           (fun q => if q =? p then v else storage t q) (allocate t).

(** Strides of a contiguous tensor of the given sizes. *)
Fixpoint contiguous_strides (sz : list Z) : list Z :=
  match sz with
  | [] => []
  | _ :: tl => foldr (fun s acc => Z.max s 1 * acc) 1 tl :: contiguous_strides tl
  end.

(** Modelled from the spec: [Tensor::unsqueeze_] is not under src/.  It
    inserts a size-1 dimension at position [dim]. *)
Definition unsqueeze_ (dim : Z) (t : Tensor) : Tensor :=
  let d := Z.to_nat dim in
  let new_stride :=
    match sizes t !! d, strides t !! d with
    | Some n, Some s => n * s
    | _, _ => 1
    end in
  set_shape t (take d (sizes t) ++ 1 :: drop d (sizes t))
              (take d (strides t) ++ new_stride :: drop d (strides t)).

(** Modelled from the spec: [Tensor::squeeze_] is not under src/.  It
    removes dimension [dim] when that dimension has size 1. *)
Definition squeeze_ (dim : Z) (t : Tensor) : Tensor :=
  let d := Z.to_nat dim in
  match sizes t !! d with
  | Some 1 => set_shape t (delete d (sizes t)) (delete d (strides t))
  | _ => t
  end.

(** Modelled from the spec: ReduceOpsUtils.h is not under src/.  A rank-0
    tensor is handled as a one-element vector; other size vectors are kept
    as they are. *)
Definition ensure_nonempty_vec (vec : list Z) : list Z :=
  match vec with [] => [1] | _ => vec end.

(** Modelled from the spec: ReduceOpsUtils.h is not under src/.  The stride
    of the axis in elements, 1 for a rank-0 tensor. *)
Definition ensure_nonempty_stride (t : Tensor) (dim : Z) : Z :=
  match strides t !! Z.to_nat dim with Some s => s | None => 1 end.

(* ===================================================================== *)
(** ** Errors and the monad of the kernels *)
(* ===================================================================== *)

Inductive Error := InvalidAxis | TypeMismatch | AllocationFailure | NotImplemented.

Inductive Res (A : Type) :=
  | Ok (a : A)
  | Err (e : Error).
Arguments Ok {A} a.
Arguments Err {A} e.

(** The two output tensors the kernels mutate. *)
Record Outputs := mkOutputs { result : Tensor; indices : Tensor }.

(** A computation reads and updates the outputs and returns or throws; the
    outputs are kept when it throws, so that what was mutated before the
    throw stays visible. *)
Definition M (A : Type) : Type := Outputs -> Res A * Outputs.

#[export] Instance M_ret : MRet M := fun A a o => (Ok a, o).
#[export] Instance M_bind : MBind M := fun A B k m o =>
  match m o with
  | (Ok a, o') => k a o'
  | (Err e, o') => (Err e, o')
  end.

Definition throw {A} (e : Error) : M A := fun o => (Err e, o).
Definition lift {A} (r : Res A) : M A := fun o => (r, o).
Definition get : M Outputs := fun o => (Ok o, o).
Definition modify (f : Outputs -> Outputs) : M unit := fun o => (Ok tt, f o).
Definition when (c : bool) (m : M unit) : M unit := if c then m else mret tt.

Definition on_result (f : Tensor -> Tensor) : Outputs -> Outputs :=
  fun o => mkOutputs (f (result o)) (indices o).
Definition on_indices (f : Tensor -> Tensor) : Outputs -> Outputs :=
  fun o => mkOutputs (result o) (f (indices o)).

(** Modelled from the spec: [Tensor::resize_] is not under src/.  It gives
    the tensor the requested sizes, allocating or reallocating the backing
    storage as needed: the contents of the cells are undefined afterwards
    (they are what the allocation left there), and a failed allocation
    throws. *)
Definition resize_ (new_sizes : list Z) (t : Tensor) : Res Tensor :=
  match allocate t new_sizes with
  | Some cells =>
      Ok (mkTensor (scalar_type t) new_sizes
            (if bool_decide (sizes t = new_sizes) then strides t
             else contiguous_strides new_sizes)
            (storage_offset t) cells (allocate t))
  | None => Err AllocationFailure
  end.

(** [TORCH_CHECK(cond, ...)]. *)
Definition TORCH_CHECK (cond : bool) (e : Error) : M unit :=
  if cond then mret tt else throw e.

(* ===================================================================== *)
(** ** Type dispatch *)
(* ===================================================================== *)

(** The [scalar_t] a dispatch macro instantiates: the C++ type, its
    operations, and how its values sit in storage cells. *)
Record Domain := mkDomain {
  carrier : Type;
  key : Type;
  dom_ops : ScalarOps carrier key;
  of_cell : Scalar -> carrier;
  to_cell : carrier -> Scalar
}.

Definition int_domain : Domain := mkDomain Z Z int_ops as_int IntV.
Definition bool_domain : Domain := mkDomain bool bool bool_ops as_bool BoolV.
Definition float_domain : Domain :=
  mkDomain spec_float spec_float float_ops as_float FloatV.
Definition complex_domain (cabs : spec_float -> spec_float -> spec_float) : Domain :=
  mkDomain complex spec_float (complex_ops cabs) as_complex ComplexV.

(** Modelled from the spec: the dispatch macros (ATen/Dispatch.h) are not
    under src/.  [AT_DISPATCH_ALL_TYPES_AND_COMPLEX_AND(ScalarType::Bool, ...)]
    serves the integral types, Float and Double, the two complex types and
    Bool, and throws for every other type. *)
Definition AT_DISPATCH_ALL_TYPES_AND_COMPLEX_AND_Bool (st : ScalarType) : Res Domain :=
  match st with
  | Byte | Char | Short | Int | Long => Ok int_domain
  | Float | Double => Ok float_domain
  | ComplexFloat => Ok (complex_domain cabs32)
  | ComplexDouble => Ok (complex_domain cabs64)
  | Bool => Ok bool_domain
  | _ => Err NotImplemented
  end.

(** Modelled from the spec: [AT_DISPATCH_ALL_TYPES_AND_COMPLEX], not under
    src/, serves the same types without Bool. *)
Definition AT_DISPATCH_ALL_TYPES_AND_COMPLEX (st : ScalarType) : Res Domain :=
  match st with
  | Bool => Err NotImplemented
  | _ => AT_DISPATCH_ALL_TYPES_AND_COMPLEX_AND_Bool st
  end.

(** Modelled from the spec: [AT_DISPATCH_FLOATING_TYPES_AND2(Half, BFloat16,
    ...)], not under src/, serves Float, Double, Half and BFloat16. *)
Definition AT_DISPATCH_FLOATING_TYPES_AND2_Half_BFloat16 (st : ScalarType) : Res Domain :=
  match st with
  | Float | Double | Half | BFloat16 => Ok float_domain
  | _ => Err NotImplemented
  end.

(* ===================================================================== *)
(** ** compare_base_kernel *)
(* ===================================================================== *)

(** The callable [f]: [f(result_data, indice_data, self_data, self_dim_stride)]. *)
Definition lane_fn : Type := Z -> Z -> (Z -> Scalar) -> Z -> Outputs -> Outputs.

(** What [iter.for_each] hands to its callback: three pointers, three
    strides and a count. *)
Record Chunk := mkChunk { data : Z * Z * Z; chunk_strides : Z * Z * Z; count : Z }.

Definition dot (st idx : list Z) : Z := foldr Z.add 0 (zip_with Z.mul st idx).

Fixpoint indices_of (shape : list Z) : list (list Z) :=
  match shape with
  | [] => [[]]
  | n :: tl => i ← seqZ 0 n; (cons i) <$> indices_of tl
  end.

(** Modelled from the spec: the iteration engine (TensorIterator) is not
    under src/.  Over the declared shape, with the squashed dimension of
    size 1, it enumerates every lane once; here dimension 0 is walked by the
    callback ([count] lanes, one stride apart) and the other dimensions by
    the engine. *)
Definition build (shape : list Z) (squash_dim : Z) (r i s : Tensor) : list Chunk :=
  match <[Z.to_nat squash_dim := 1]> shape with
  | [] => [mkChunk (storage_offset r, storage_offset i, storage_offset s) (0, 0, 0) 1]
  | n :: tl =>
      let hd st := match st with [] => 0 | x :: _ => x end in
      (fun idx =>
         mkChunk (storage_offset r + dot (tail (strides r)) idx,
                  storage_offset i + dot (tail (strides i)) idx,
                  storage_offset s + dot (tail (strides s)) idx)
                 (hd (strides r), hd (strides i), hd (strides s)) n)
      <$> indices_of tl
  end.

(** The lambda [loop] (lines 50-63), [n] being the iterations left. *)
Fixpoint loop (f : lane_fn) (self : Tensor) (self_dim_stride : Z) (n : nat)
    (result_data indice_data self_data : Z) (st : Z * Z * Z) (o : Outputs) : Outputs :=
  match n with
  | O => o
  | S n' =>
      let o' := f result_data indice_data
                  (fun k => storage self (self_data + k)) self_dim_stride o in
      loop f self self_dim_stride n'
           (result_data + st.1.1) (indice_data + st.1.2) (self_data + st.2) st o'
  end.

(** Modelled from the spec: [TensorIterator::for_each] is not under src/.
    It invokes the callback on every chunk of lanes. *)
Definition for_each (iter : list Chunk)
    (callback : nat -> Z -> Z -> Z -> Z * Z * Z -> Outputs -> Outputs)
    (o : Outputs) : Outputs :=
  foldl (fun acc c =>
           callback (Z.to_nat (count c)) (data c).1.1 (data c).1.2 (data c).2
                    (chunk_strides c) acc) o iter.

(** Lines 28-35. *)
Definition unsqueeze_outputs (dim : Z) (keepdim : bool) : M unit :=
  when (negb keepdim) (
    (o ← get;
     when (ndimension (result o) >=? dim) (modify (on_result (unsqueeze_ dim)))) ;;
    (o ← get;
     when (ndimension (indices o) >=? dim) (modify (on_indices (unsqueeze_ dim))))).

(** Lines 36-37. *)
Definition resize_outputs (self_sizes : list Z) : M unit :=
  (o ← get;
   r ← lift (resize_ self_sizes (result o));
   modify (on_result (fun _ => r))) ;;
  (o ← get;
   r ← lift (resize_ self_sizes (indices o));
   modify (on_indices (fun _ => r))).

Definition compare_base_kernel (self : Tensor) (dim : Z) (keepdim : bool)
    (f : lane_fn) : M unit :=
  let self_sizes := <[Z.to_nat dim := 1]> (ensure_nonempty_vec (sizes self)) in
  unsqueeze_outputs dim keepdim ;;
  resize_outputs self_sizes ;;
  let self_dim_stride := ensure_nonempty_stride self dim in
  o ← get;
  let iter := build (sizes self) dim (result o) (indices o) self in
  modify (for_each iter (loop f self self_dim_stride)) ;;
  when (negb keepdim) (
    modify (on_result (squeeze_ dim)) ;;
    modify (on_indices (squeeze_ dim))).

(* ===================================================================== *)
(** ** min_kernel_impl and max_kernel_impl *)
(* ===================================================================== *)

(** Modelled from the spec: [maybe_wrap_dim] (WrapDimUtils.h) is not under
    src/.  It normalizes a negative axis by wrap-around and fails with
    InvalidAxis when the axis is out of range for the rank; a rank-0 input
    counts as having one dimension, as it does for [ensure_nonempty_vec]. *)
Definition maybe_wrap_dim (dim dim_post_expr : Z) : Res Z :=
  let n := Z.max dim_post_expr 1 in
  if (- n <=? dim) && (dim <? n)
  then Ok (if dim <? 0 then dim + n else dim)
  else Err InvalidAxis.

(** Modelled from the spec: [ensure_nonempty_size] (ReduceOpsUtils.h) is not
    under src/.  Like its siblings [ensure_nonempty_vec] and
    [ensure_nonempty_stride] it only handles rank 0: it gives the extent of
    the axis, 1 for a rank-0 tensor, and never fails.  Lines 79 and 92 use
    its value as the bound of the scan and nothing else; a zero extent is
    for the caller to guard. *)
Definition ensure_nonempty_size (t : Tensor) (dim : Z) : Z :=
  match sizes t !! Z.to_nat dim with Some n => n | None => 1 end.

(** The lambda given to [compare_base_kernel] by [min_kernel_impl], at the
    dispatched [scalar_t]. *)
Definition min_lambda (d : Domain) (self_dim_size : Z) : lane_fn :=
  fun result_data indice_data self_data self_dim_stride o =>
    let '(min_number, index) :=
      min_lane (ops:=dom_ops d) self_dim_size
               (fun k => of_cell d (self_data k)) self_dim_stride in
    on_indices (fun t => store t indice_data (IntV index))
      (on_result (fun t => store t result_data (to_cell d min_number)) o).

Definition max_lambda (d : Domain) (self_dim_size : Z) : lane_fn :=
  fun result_data indice_data self_data self_dim_stride o =>
    let '(max_number, index) :=
      max_lane (ops:=dom_ops d) self_dim_size
               (fun k => of_cell d (self_data k)) self_dim_stride in
    on_indices (fun t => store t indice_data (IntV index))
      (on_result (fun t => store t result_data (to_cell d max_number)) o).

(** [result] and [indice] are the state of the monad. *)
Definition min_kernel_impl (self : Tensor) (dim : Z) (keepdim : bool) : M unit :=
  wrap_dim ← lift (maybe_wrap_dim dim (ndimension self));
  let self_dim_size := ensure_nonempty_size self wrap_dim in
  o ← get;
  TORCH_CHECK (bool_decide (scalar_type (result o) = scalar_type self)
               && bool_decide (scalar_type (indices o) = kLong)) TypeMismatch ;;
  d ← lift (AT_DISPATCH_ALL_TYPES_AND_COMPLEX_AND_Bool (scalar_type self));
  compare_base_kernel self wrap_dim keepdim (min_lambda d self_dim_size).

Definition max_kernel_impl (self : Tensor) (dim : Z) (keepdim : bool) : M unit :=
  wrap_dim ← lift (maybe_wrap_dim dim (ndimension self));
  let self_dim_size := ensure_nonempty_size self wrap_dim in
  o ← get;
  TORCH_CHECK (bool_decide (scalar_type (result o) = scalar_type self)
               && bool_decide (scalar_type (indices o) = kLong)) TypeMismatch ;;
  d ← lift (AT_DISPATCH_ALL_TYPES_AND_COMPLEX_AND_Bool (scalar_type self));
  compare_base_kernel self wrap_dim keepdim (max_lambda d self_dim_size).

(* ===================================================================== *)
(** ** The element-wise kernels: where, isposinf, isneginf *)
(* ===================================================================== *)

(** A [TensorIterator] built for an element-wise kernel, its operands
    already broadcast to a common element count: the cells of each input in
    iteration order, and the cells of the output. *)
Record TensorIterator := mkIter {
  dtype : ScalarType;
  input_dtype : ScalarType;
  inputs : list (list Scalar);
  output : list Scalar
}.

Definition set_output (iter : TensorIterator) (out : list Scalar) : TensorIterator :=
  mkIter (dtype iter) (input_dtype iter) (inputs iter) out.

Fixpoint map3 {A B C D} (f : A -> B -> C -> D)
    (la : list A) (lb : list B) (lc : list C) : list D :=
  match la, lb, lc with
  | a :: la', b :: lb', c :: lc' => f a b c :: map3 f la' lb' lc'
  | _, _, _ => []
  end.

(** Modelled from the spec: [cpu_kernel] (cpu/Loops.h) is not under src/.
    It applies the operation at every element position and stores what it
    returns in the output. *)
Definition cpu_kernel1 (iter : TensorIterator) (op : Scalar -> Scalar) : TensorIterator :=
  match inputs iter with
  | [a] => set_output iter (op <$> a)
  | _ => iter
  end.

(** Modelled from the spec: [cpu_kernel] for an operation of three
    arguments. *)
Definition cpu_kernel3 (iter : TensorIterator)
    (op : Scalar -> Scalar -> Scalar -> Scalar) : TensorIterator :=
  match inputs iter with
  | [c; a; b] => set_output iter (map3 op c a b)
  | _ => iter
  end.

(** The two lambdas of [where_kernel_impl]; [scalar_t] values are handed
    on as they are.  A [uint8_t] condition is true when it is not zero. *)
Definition where_byte {T} (cond_val : Z) (self_val other_val : T) : T :=
  if negb (cond_val =? 0) then self_val else other_val.

Definition where_bool {T} (cond_val : bool) (self_val other_val : T) : T :=
  if cond_val then self_val else other_val.

Definition where_kernel_impl (iter : TensorIterator) (condition_type : ScalarType)
  : Res TensorIterator :=
  match AT_DISPATCH_ALL_TYPES_AND_COMPLEX (dtype iter) with
  | Err e => Err e
  | Ok _ =>
      if bool_decide (condition_type = Byte) then
        Ok (cpu_kernel3 iter (fun c a b => where_byte (as_int c) a b))
      else
        Ok (cpu_kernel3 iter (fun c a b => where_bool (as_bool c) a b))
  end.

(** [std::numeric_limits<scalar_t>::infinity()]. *)
Definition infinity : spec_float := S754_infinity false.

(** The lambdas of [isposinf_kernel_impl] and [isneginf_kernel_impl]; [==]
    is the IEEE comparison. *)
Definition isposinf (a : spec_float) : bool := SFeqb a infinity.
Definition isneginf (a : spec_float) : bool := SFeqb a (SFopp infinity).

Definition isposinf_kernel_impl (iter : TensorIterator) : Res TensorIterator :=
  match AT_DISPATCH_FLOATING_TYPES_AND2_Half_BFloat16 (input_dtype iter) with
  | Err e => Err e
  | Ok _ => Ok (cpu_kernel1 iter (fun a => BoolV (isposinf (as_float a))))
  end.

Definition isneginf_kernel_impl (iter : TensorIterator) : Res TensorIterator :=
  match AT_DISPATCH_FLOATING_TYPES_AND2_Half_BFloat16 (input_dtype iter) with
  | Err e => Err e
  | Ok _ => Ok (cpu_kernel1 iter (fun a => BoolV (isneginf (as_float a))))
  end.

(* ===================================================================== *)
(** ** What the specification says, as predicates *)
(* ===================================================================== *)

Section LaneSpec.
Context {T V : Type} {ops : ScalarOps T V}.
Variable self_dim_size : Z.
Variable self_data : Z -> T.
Variable self_dim_stride : Z.

(** The element at position [i] of the lane. *)
Definition elem (i : Z) : T := self_data (i * self_dim_stride).

(** No element along the axis is NaN. *)
Definition no_nan : Prop :=
  forall i, 0 <= i < self_dim_size -> _isnan (elem i) = false.

(** [k] is the first position of the lane whose element is NaN. *)
Definition first_nan (k : Z) : Prop :=
  0 <= k < self_dim_size /\ _isnan (elem k) = true /\
  forall j, 0 <= j < k -> _isnan (elem j) = false.

(** [r] is the element of minimal key, with the position of the first
    occurrence of that key: no key is below it, and every earlier key is
    strictly above it. *)
Definition first_min (r : T * Z) : Prop :=
  0 <= r.2 < self_dim_size /\ r.1 = elem r.2 /\
  (forall j, 0 <= j < self_dim_size -> geb (zabs (elem j)) (zabs r.1) = true) /\
  (forall j, 0 <= j < r.2 -> geb (zabs r.1) (zabs (elem j)) = false).

Definition first_max (r : T * Z) : Prop :=
  0 <= r.2 < self_dim_size /\ r.1 = elem r.2 /\
  (forall j, 0 <= j < self_dim_size -> leb (zabs (elem j)) (zabs r.1) = true) /\
  (forall j, 0 <= j < r.2 -> leb (zabs r.1) (zabs (elem j)) = false).

(** The lane's outputs are the NaN at [k] and [k], whatever the lane holds
    after position [k]. *)
Definition poisoned_at (k : Z) : Prop :=
  min_lane self_dim_size self_data self_dim_stride = (elem k, k) /\
  max_lane self_dim_size self_data self_dim_stride = (elem k, k) /\
  forall other : Z -> T,
    (forall i, 0 <= i <= k -> other (i * self_dim_stride) = elem i) ->
    min_lane self_dim_size other self_dim_stride = (elem k, k) /\
    max_lane self_dim_size other self_dim_stride = (elem k, k).

(** NaN poisoning as the specification words it: the first NaN of the lane
    is what the scan returns. *)
Definition nan_poisons : Prop :=
  forall k, first_nan k -> poisoned_at k.
End LaneSpec.

(** The shape of the outputs: the input's shape with the axis set to 1, or
    removed. *)
Definition reduced_shape (keepdim : bool) (d : Z) (shape : list Z) : list Z :=
  if keepdim then <[Z.to_nat d := 1]> shape else delete (Z.to_nat d) shape.

(** The unsqueeze rule as the specification words it: an output buffer is
    unsqueezed before the resize exactly when its rank is at least axis+1. *)
Definition unsqueeze_rule_spec (dim : Z) (o : Outputs) : Prop :=
  let o' := (unsqueeze_outputs dim false o).2 in
  (result o' = unsqueeze_ dim (result o) <-> dim + 1 <= ndimension (result o)) /\
  (indices o' = unsqueeze_ dim (indices o) <-> dim + 1 <= ndimension (indices o)).

(** The output types do not fit the input. *)
Definition type_mismatch (self : Tensor) (o : Outputs) : Prop :=
  scalar_type (result o) <> scalar_type self \/ scalar_type (indices o) <> kLong.

(** The axis is in range for the input, a rank-0 input counting as of
    rank 1. *)
Definition axis_in_range (self : Tensor) (dim : Z) : Prop :=
  - Z.max (ndimension self) 1 <= dim < Z.max (ndimension self) 1.

(** The axis is in range and the input has extent zero along it. *)
Definition zero_extent (self : Tensor) (dim : Z) : Prop :=
  exists d, maybe_wrap_dim dim (ndimension self) = Ok d /\
            sizes self !! Z.to_nat d = Some 0.

(** The axis is out of range for the input, or in range with extent
    zero. *)
Definition invalid_axis (self : Tensor) (dim : Z) : Prop :=
  ~ axis_in_range self dim \/ zero_extent self dim.

(** The axis check as the specification words it: an invalid axis, out of
    range or of zero extent, surfaces as InvalidAxis, the outputs
    untouched. *)
Definition invalid_axis_spec (self : Tensor) (dim : Z) (keepdim : bool) (o : Outputs) : Prop :=
  invalid_axis self dim ->
  min_kernel_impl self dim keepdim o = (Err InvalidAxis, o) /\
  max_kernel_impl self dim keepdim o = (Err InvalidAxis, o).

(** Ternary select on the logical condition. *)
Definition select_spec {T} (cond : list bool) (a b : list T) : list T :=
  map3 (fun c x y => if c : bool then x else y) cond a b.

(** The logical condition a condition byte stands for. *)
Definition truthy (z : Z) : bool := negb (z =? 0).

(** The floating types the infinity predicates dispatch to. *)
Definition floating (dt : ScalarType) : Prop :=
  dt = Float \/ dt = Double \/ dt = Half \/ dt = BFloat16.

(* ===================================================================== *)
(** ** Auxiliary definitions *)
(* ===================================================================== *)

(** A magnitude that is NaN only when a component is. *)
Definition cabs_total (cabs : spec_float -> spec_float -> spec_float) : Prop :=
  forall x y, is_nan x = false -> is_nan y = false -> is_nan (cabs x y) = false.

(** Zero, finite or infinite, and not negative. *)
Definition nonneg_float (f : spec_float) : bool :=
  match f with
  | S754_zero s | S754_infinity s | S754_finite s _ _ => negb s
  | S754_nan => false
  end.

(** A lane callable that leaves the shapes of the outputs alone. *)
Definition shape_preserving (f : lane_fn) : Prop :=
  forall rp ip sd st o,
    sizes (result (f rp ip sd st o)) = sizes (result o) /\
    sizes (indices (f rp ip sd st o)) = sizes (indices o).

(** The text [min_kernel_impl] and [max_kernel_impl] share, over the lambda
    they hand to [compare_base_kernel]. *)
Definition kernel_impl (lambda : Domain -> Z -> lane_fn)
    (self : Tensor) (dim : Z) (keepdim : bool) : M unit :=
  wrap_dim ← lift (maybe_wrap_dim dim (ndimension self));
  let self_dim_size := ensure_nonempty_size self wrap_dim in
  o ← get;
  TORCH_CHECK (bool_decide (scalar_type (result o) = scalar_type self)
               && bool_decide (scalar_type (indices o) = kLong)) TypeMismatch ;;
  d ← lift (AT_DISPATCH_ALL_TYPES_AND_COMPLEX_AND_Bool (scalar_type self));
  compare_base_kernel self wrap_dim keepdim (lambda d self_dim_size).

(* ===================================================================== *)
(** ** Sample inputs *)
(* ===================================================================== *)

(** A lane held in a list, read relative to its first element. *)
Definition lane_of {T} (dflt : T) (l : list T) : Z -> T :=
  fun q => default dflt (l !! Z.to_nat q).

Definition lane_3_1_1 : Z -> spec_float :=
  lane_of S754_nan [double_of_Z 3; double_of_Z 1; double_of_Z 1].

(** The lane [3.0, NaN, 1.0]. *)
Definition lane_3_nan_1 : Z -> spec_float :=
  lane_of S754_nan [double_of_Z 3; S754_nan; double_of_Z 1].

(** The complex lane [1+0i, inf+NaN i]. *)
Definition lane_1_infnan : Z -> complex :=
  lane_of (Complex S754_nan S754_nan)
          [Complex (double_of_Z 1) (double_of_Z 0); Complex infinity S754_nan].

(** The boolean lane [true, false, false]. *)
Definition lane_t_f_f : Z -> bool := lane_of false [true; false; false].

(** Sample tensors: the 2x3 input [[1,5,2],[9,0,3]], outputs never used
    before, and outputs left with shape [2] by an earlier reduction. *)
Definition cells_of (l : list Z) : Z -> Scalar :=
  fun q => IntV (default 0 (l !! Z.to_nat q)).

(** An allocation that succeeds and leaves zeros in the cells. *)
Definition zeroed : list Z -> option (Z -> Scalar) := fun _ => Some (cells_of []).

(** An allocation that fails whenever storage is asked for. *)
Definition exhausted : list Z -> option (Z -> Scalar) := fun _ => None.

Definition sample_self : Tensor :=
  mkTensor Long [2; 3] [3; 1] 0 (cells_of [1; 5; 2; 9; 0; 3]) zeroed.

Definition empty_tensor (st : ScalarType) : Tensor := mkTensor st [0] [1] 0 (cells_of []) zeroed.

Definition fresh_outputs : Outputs := mkOutputs (empty_tensor Long) (empty_tensor Long).

Definition reused_outputs : Outputs :=
  mkOutputs (mkTensor Long [2] [1] 0 (cells_of [1; 0]) zeroed)
            (mkTensor Long [2] [1] 0 (cells_of [0; 1]) zeroed).

(** Outputs whose storage cannot grow. *)
Definition starved_outputs : Outputs :=
  mkOutputs (mkTensor Long [0] [1] 0 (cells_of []) exhausted)
            (mkTensor Long [0] [1] 0 (cells_of []) exhausted).

Definition float_outputs : Outputs := mkOutputs (empty_tensor Float) (empty_tensor Long).

(** A boolean input [[true, false, false]] of shape [1, 3]. *)
Definition bool_self : Tensor :=
  mkTensor Bool [1; 3] [3; 1] 0
           (fun q => BoolV (default false ([true; false; false] !! Z.to_nat q))) zeroed.

Definition bool_outputs : Outputs := mkOutputs (empty_tensor Bool) (empty_tensor Long).

(** The complex lane [3+4i, 1+1i]. *)
Definition lane_3_4i_1_1i : Z -> complex :=
  lane_of (Complex S754_nan S754_nan)
          [Complex (double_of_Z 3) (double_of_Z 4); Complex (double_of_Z 1) (double_of_Z 1)].

(** The first cells of a storage. *)
Definition cells (t : Tensor) (n : nat) : list Scalar :=
  (fun q => storage t (Z.of_nat q)) <$> seq 0 n.

(** A rank-0 input holding 7. *)
Definition rank0_self : Tensor := mkTensor Long [] [] 0 (cells_of [7]) zeroed.

(** An input of shape [2, 0]. *)
Definition zero_extent_self : Tensor := mkTensor Long [2; 0] [1; 1] 0 (cells_of []) zeroed.

(** The iterators [where] runs on, the condition held as bytes and as
    native booleans. *)
Definition where_iter_bytes (dt : ScalarType) (bytes : list Z) (a b out : list Scalar)
  : TensorIterator := mkIter dt dt [IntV <$> bytes; a; b] out.
Definition where_iter_native (dt : ScalarType) (cond : list bool) (a b out : list Scalar)
  : TensorIterator := mkIter dt dt [BoolV <$> cond; a; b] out.

(** The iterator of the infinity predicates: float cells in, Bool cells out. *)
Definition float_iter (dt : ScalarType) (xs : list spec_float) (out : list Scalar)
  : TensorIterator := mkIter Bool dt [FloatV <$> xs] out.

(* ===================================================================== *)
(** ** Further definitions *)
(* ===================================================================== *)

(** The lane a pointer [p] into the storage of [self] points to. *)
Definition lane_at (self : Tensor) (p : Z) : Z -> Scalar :=
  fun k => storage self (p + k).

(** The lane that starts [off] elements further on. *)
Definition shifted {T} (data : Z -> T) (off : Z) : Z -> T :=
  fun q => data (q + off).

(** All the keys of the lane compare as equal. *)
Definition all_keys_equal {T V} `{ScalarOps T V} (n : Z) (data : Z -> T) (stride : Z) : Prop :=
  forall j k, 0 <= j < n -> 0 <= k < n ->
    geb (zabs (elem data stride j)) (zabs (elem data stride k)) = true.

(** What the min and max lambdas store for the lane [sd]: a cell for the
    result and the index. *)
Definition min_stored (d : Domain) (n : Z) (sd : Z -> Scalar) (stride : Z) : Scalar * Z :=
  let r := min_lane (ops:=dom_ops d) n (fun k => of_cell d (sd k)) stride in
  (to_cell d r.1, r.2).

Definition max_stored (d : Domain) (n : Z) (sd : Z -> Scalar) (stride : Z) : Scalar * Z :=
  let r := max_lane (ops:=dom_ops d) n (fun k => of_cell d (sd k)) stride in
  (to_cell d r.1, r.2).

(** A lane callable that stores one cell through each output pointer. *)
Definition storing (f : lane_fn) (stored : (Z -> Scalar) -> Z -> Scalar * Z) : Prop :=
  forall rp ip sd st o,
    f rp ip sd st o
    = mkOutputs (store (result o) rp (stored sd st).1)
                (store (indices o) ip (IntV (stored sd st).2)).

(** The complement of a condition byte: 1 for 0, and 0 for any other byte. *)
Definition complement (z : Z) : Z := if z =? 0 then 1 else 0.

(** The lane [3.0, 1.0, 1.0, 0.0]. *)
Definition lane_3_1_1_0 : Z -> spec_float :=
  lane_of S754_nan [double_of_Z 3; double_of_Z 1; double_of_Z 1; double_of_Z 0].

(** The lane [NaN]. *)
Definition lane_nan : Z -> spec_float := lane_of (double_of_Z 0) [S754_nan].

(** The integer lane [4, 2, 7, 2, 9]. *)
Definition lane_4_2_7_2_9 : Z -> Z := lane_of 0 [4; 2; 7; 2; 9].

(** The integer lane [5, 5, 5]. *)
Definition lane_5_5_5 : Z -> Z := lane_of 0 [5; 5; 5].

(* ===================================================================== *)
(** ** Properties of the lane scans *)
(* ===================================================================== *)

Lemma max_loop_dual {T V} (ops : ScalarOps T V) data stride fuel i m idx :
  max_loop (ops:=ops) data stride fuel i m idx
  = min_loop (ops:=dual_ops ops) data stride fuel i m idx.
Proof.
  revert i m idx. induction fuel as [|fuel IH]; intros i m idx; simpl; [reflexivity|].
  rewrite !IH. reflexivity.
Qed.

Lemma max_lane_dual {T V} (ops : ScalarOps T V) n data stride :
  max_lane (ops:=ops) n data stride = min_lane (ops:=dual_ops ops) n data stride.
Proof. apply max_loop_dual. Qed.

Lemma dual_laws {T V} (ops : ScalarOps T V) :
  ScalarLaws T V (H:=ops) -> ScalarLaws T V (H:=dual_ops ops).
Proof.
  intros L. split; unfold ordered; simpl.
  - intros a b Ha Hb. rewrite !leb_geb. rewrite leb_geb in Ha, Hb.
    destruct (geb_total a b Ha Hb); auto.
  - intros a b c. rewrite !leb_geb. intros Hab Hbc. exact (geb_trans c b a Hbc Hab).
  - intros a b. rewrite leb_geb. reflexivity.
  - intros v Hv. rewrite leb_geb. exact (nonnan_ordered v Hv).
Qed.

Section LaneProofs.
Context {T V : Type} {ops : ScalarOps T V}.
Variable n : Z.
Variable data : Z -> T.
Variable stride : Z.

Local Abbreviation el := (elem data stride).

(** The index the loop returns is the one it started with or one of the
    positions it visited. *)
Lemma min_loop_index fuel : forall i m idx,
  (min_loop data stride fuel i m idx).2 = idx \/
  i <= (min_loop data stride fuel i m idx).2 < i + Z.of_nat fuel.
Proof.
  induction fuel as [|fuel IH]; intros i m idx; simpl; [by left|].
  destruct (negb _).
  - destruct (_isnan _); simpl; [right; lia|].
    destruct (IH (i + 1) (data (i * stride)) i) as [->|?]; right; lia.
  - destruct (IH (i + 1) m idx) as [->|?]; [by left|right; lia].
Qed.

Lemma min_lane_index : 1 <= n -> 0 <= (min_lane n data stride).2 < n.
Proof.
  intros Hn. unfold min_lane.
  destruct (min_loop_index (Z.to_nat n) 0 (data 0) 0) as [->|?]; lia.
Qed.

(** The loop never breaks on a stretch without NaN and keeps the first
    element of minimal key among the positions visited. *)
Lemma min_loop_first_min `{!ScalarLaws T V} fuel : forall i m idx,
  0 <= i -> i + Z.of_nat fuel = n ->
  (forall j, i <= j < n -> _isnan (el j) = false) ->
  0 <= idx < n -> m = el idx -> ordered (zabs m) = true ->
  (forall j, 0 <= j < i -> geb (zabs (el j)) (zabs m) = true) ->
  (forall j, 0 <= j < idx -> geb (zabs m) (zabs (el j)) = false) ->
  first_min n data stride (min_loop data stride fuel i m idx).
Proof.
  induction fuel as [|fuel IH]; intros i m idx Hi Hfuel Hnan Hidx Hm Hord Hle Hlt.
  - simpl. repeat split; simpl; try lia; auto.
    intros j Hj. apply Hle. lia.
  - simpl. fold (el i).
    assert (Hi_nan : _isnan (el i) = false) by (apply Hnan; lia).
    pose proof (nonnan_ordered _ Hi_nan) as Hi_ord.
    destruct (geb (zabs (el i)) (zabs m)) eqn:Hcmp; simpl.
    + apply IH; auto; try lia.
      * intros j Hj. apply Hnan. lia.
      * intros j Hj. destruct (Z.eq_dec j i) as [->|]; [done|apply Hle; lia].
    + rewrite Hi_nan.
      assert (Hmi : geb (zabs m) (zabs (el i)) = true).
      { destruct (geb_total _ _ Hord Hi_ord) as [?|?]; [done|congruence]. }
      apply IH; auto; try lia.
      * intros j Hj. apply Hnan. lia.
      * intros j Hj. destruct (Z.eq_dec j i) as [->|]; [done|].
        apply geb_trans with (zabs m); [apply Hle; lia|done].
      * intros j Hj. destruct (geb (zabs (el i)) (zabs (el j))) eqn:Hij; [|done].
        rewrite <- Hcmp. symmetry.
        apply geb_trans with (zabs (el j)); [done|apply Hle; lia].
Qed.

Lemma min_lane_first_min `{!ScalarLaws T V} :
  1 <= n -> no_nan n data stride -> first_min n data stride (min_lane n data stride).
Proof.
  intros Hn Hnan. unfold min_lane.
  assert (H0 : data 0 = el 0) by reflexivity.
  apply min_loop_first_min; try lia; auto.
  rewrite H0. apply nonnan_ordered, Hnan. lia.
Qed.

(** A NaN whose key is unordered is taken wherever the scan stands, and
    ends the scan. *)
Lemma min_loop_first_nan fuel : forall i k m idx (other : Z -> T),
  0 <= i <= k -> k < i + Z.of_nat fuel ->
  (forall j, i <= j <= k -> other (j * stride) = el j) ->
  (forall j, i <= j < k -> _isnan (el j) = false) ->
  _isnan (el k) = true ->
  (forall x, geb (zabs (el k)) x = false) ->
  min_loop other stride fuel i m idx = (el k, k).
Proof.
  induction fuel as [|fuel IH]; intros i k m idx other Hi Hk Hsame Hnan Hk_nan Hkey; [lia|].
  simpl. rewrite (Hsame i) by lia.
  destruct (Z.eq_dec i k) as [->|Hne].
  - rewrite Hkey. simpl. by rewrite Hk_nan.
  - rewrite (Hnan i) by lia.
    destruct (negb _); apply IH; auto; try lia;
      intros j Hj; (apply Hsame || apply Hnan); lia.
Qed.
End LaneProofs.

(* ===================================================================== *)
(** ** The element domains satisfy the order laws *)
(* ===================================================================== *)

#[export] Instance int_laws : ScalarLaws Z Z.
Proof.
  split; unfold ordered; simpl; intros.
  - lia.
  - lia.
  - apply eq_true_iff_eq. rewrite Z.leb_le, Z.geb_le. reflexivity.
  - lia.
Qed.

#[export] Instance bool_laws : ScalarLaws bool bool.
Proof.
  split; unfold ordered; simpl; intros.
  - lia.
  - lia.
  - apply eq_true_iff_eq. rewrite Z.leb_le, Z.geb_le. reflexivity.
  - lia.
Qed.

(** [SFleb] is a total preorder on the floats that are not NaN. *)
Lemma SFleb_nan_l x : SFleb S754_nan x = false.
Proof. reflexivity. Qed.

Lemma SFleb_nan_r x : SFleb x S754_nan = false.
Proof. by destruct x. Qed.

Lemma SFleb_refl x : is_nan x = false -> SFleb x x = true.
Proof.
  destruct x as [s|s| |s m e]; intros H; try done; unfold SFleb; simpl.
  - by destruct s.
  - destruct s; rewrite Z.compare_refl, Pos.compare_cont_refl; done.
Qed.

Lemma SFleb_self_nonnan x : SFleb x x = true -> is_nan x = false.
Proof. by destruct x. Qed.

Local Ltac cmp_cases :=
  repeat match goal with
    | |- context [Z.compare ?a ?b] => destruct (Z.compare_spec a b); subst
    | H : context [Z.compare ?a ?b] |- _ => destruct (Z.compare_spec a b); subst
    | |- context [Pos.compare_cont Eq ?a ?b] =>
        change (Pos.compare_cont Eq a b) with (Pos.compare a b);
        destruct (Pos.compare_spec a b); subst
    | H : context [Pos.compare_cont Eq ?a ?b] |- _ =>
        change (Pos.compare_cont Eq a b) with (Pos.compare a b) in H;
        destruct (Pos.compare_spec a b); subst
    end.

Lemma SFleb_total x y :
  is_nan x = false -> is_nan y = false -> SFleb x y = true \/ SFleb y x = true.
Proof.
  destruct x as [[]|[]| |[] mx ex], y as [[]|[]| |[] my ey]; intros Hx Hy;
    try done; unfold SFleb; simpl; auto;
    cmp_cases; simpl; auto; lia.
Qed.

Lemma SFleb_trans x y z :
  SFleb x y = true -> SFleb y z = true -> SFleb x z = true.
Proof.
  destruct x as [[]|[]| |[] mx ex], y as [[]|[]| |[] my ey], z as [[]|[]| |[] mz ez];
    unfold SFleb; simpl; try done;
    cmp_cases; simpl; try done; lia.
Qed.

#[export] Instance float_laws : ScalarLaws spec_float spec_float.
Proof.
  split; unfold ordered; simpl.
  - intros a b Ha Hb.
    destruct (SFleb_total a b (SFleb_self_nonnan _ Ha) (SFleb_self_nonnan _ Hb)); auto.
  - intros a b c Hab Hbc. exact (SFleb_trans c b a Hbc Hab).
  - reflexivity.
  - intros v Hv. by apply SFleb_refl.
Qed.

(** The laws hold for the complex domain over any magnitude that is NaN only
    when a component is. *)
Lemma complex_laws cabs :
  cabs_total cabs -> ScalarLaws complex spec_float (H:=complex_ops cabs).
Proof.
  intros Hc. split; unfold ordered; simpl.
  - intros a b Ha Hb.
    destruct (SFleb_total a b (SFleb_self_nonnan _ Ha) (SFleb_self_nonnan _ Hb)); auto.
  - intros a b c Hab Hbc. exact (SFleb_trans c b a Hbc Hab).
  - reflexivity.
  - intros [re im]; simpl. intros Hv. apply orb_false_elim in Hv as [Hre Him].
    apply SFleb_refl, Hc; done.
Qed.

(** *** The modelled magnitude is NaN only when a component is *)

Lemma shr_1_nonneg mrs : 0 <= shr_m mrs -> 0 <= shr_m (shr_1 mrs).
Proof. destruct mrs as [[|[p|p|]|p] r s]; simpl; lia. Qed.

Lemma iter_pos_shr_1_nonneg p : forall mrs,
  0 <= shr_m mrs -> 0 <= shr_m (SpecFloat.iter_pos shr_1 p mrs).
Proof.
  induction p as [p IH|p IH|]; intros mrs H; simpl.
  - apply IH, IH, shr_1_nonneg, H.
  - apply IH, IH, H.
  - apply shr_1_nonneg, H.
Qed.

Lemma shr_fexp_nonneg prec emax m e l :
  0 <= m -> 0 <= shr_m (shr_fexp prec emax m e l).1.
Proof.
  intros Hm. unfold shr_fexp, shr.
  assert (H0 : 0 <= shr_m (shr_record_of_loc m l)) by (destruct l as [|[]]; exact Hm).
  destruct (_ - e); simpl; auto using iter_pos_shr_1_nonneg.
Qed.

Lemma round_nearest_even_nonneg m l : 0 <= m -> 0 <= round_nearest_even m l.
Proof. destruct l as [|[]]; simpl; try destruct (Z.even m); lia. Qed.

Lemma binary_round_aux_nonneg prec emax m e l :
  0 <= m -> nonneg_float (binary_round_aux prec emax false m e l) = true.
Proof.
  intros Hm. unfold binary_round_aux.
  pose proof (shr_fexp_nonneg prec emax m e l Hm) as H1.
  destruct (shr_fexp prec emax m e l) as [mrs' e']. simpl in H1.
  pose proof (shr_fexp_nonneg prec emax _ e' loc_Exact
                (round_nearest_even_nonneg _ (loc_of_shr_record mrs') H1)) as H2.
  destruct (shr_fexp prec emax _ e' loc_Exact) as [mrs'' e'']. simpl in H2.
  destruct (shr_m mrs''); [done| |lia].
  by destruct (_ <=? _).
Qed.

Lemma SFsqrt_nonneg prec emax x :
  nonneg_float x = true -> nonneg_float (SFsqrt prec emax x) = true.
Proof.
  destruct x as [[]|[]| |[] m e]; intros Hx; try done.
  unfold SFsqrt, SFsqrt_core_binary.
  set (m' := match _ - _ with Z.pos _ => _ | Z0 => _ | Z.neg _ => _ end).
  assert (Hm' : 0 <= m').
  { subst m'. destruct (_ - _); try lia. apply Z.shiftl_nonneg. lia. }
  pose proof (Z.sqrtrem_spec m' Hm') as Hs.
  destruct (Z.sqrtrem m') as [q r].
  apply binary_round_aux_nonneg. lia.
Qed.

Lemma nonneg_float_nonnan x : nonneg_float x = true -> is_nan x = false.
Proof. by destruct x. Qed.

Lemma hypot_total prec emax : cabs_total (hypot prec emax).
Proof.
  intros x y Hx Hy. unfold hypot. rewrite Hx, Hy.
  destruct (is_inf x || is_inf y); [done|]. cbn [orb].
  destruct x as [sx|sx| |sx mx ex], y as [sy|sy| |sy my ey]; try done.
  by apply nonneg_float_nonnan, SFsqrt_nonneg.
Qed.

(** Every domain the reductions dispatch to satisfies the order laws. *)
Lemma dispatched_laws st d :
  AT_DISPATCH_ALL_TYPES_AND_COMPLEX_AND_Bool st = Ok d ->
  ScalarLaws (carrier d) (key d) (H:=dom_ops d).
Proof.
  destruct st; simpl; intros H; inversion H; subst; simpl;
    try apply int_laws; try apply float_laws; try apply bool_laws;
    apply complex_laws, hypot_total.
Qed.

(* ===================================================================== *)
(** ** The reductions, lane by lane *)
(* ===================================================================== *)


(** What the lambdas store: the scanned value through [result_data], the
    index through [indice_data], and nothing else. *)
Lemma min_lambda_stores d n rp ip sd st o :
  let r := min_lane (ops:=dom_ops d) n (fun k => of_cell d (sd k)) st in
  min_lambda d n rp ip sd st o
  = mkOutputs (store (result o) rp (to_cell d r.1)) (store (indices o) ip (IntV r.2)).
Proof. unfold min_lambda. by destruct (min_lane _ _ _). Qed.

Lemma max_lambda_stores d n rp ip sd st o :
  let r := max_lane (ops:=dom_ops d) n (fun k => of_cell d (sd k)) st in
  max_lambda d n rp ip sd st o
  = mkOutputs (store (result o) rp (to_cell d r.1)) (store (indices o) ip (IntV r.2)).
Proof. unfold max_lambda. by destruct (max_lane _ _ _). Qed.




(** The index of the scans lies in the lane. *)
Lemma lane_index_bounds {T V} (ops : ScalarOps T V) (n : Z) (data : Z -> T) (stride : Z) :
  1 <= n ->
  0 <= (min_lane n data stride).2 < n /\ 0 <= (max_lane n data stride).2 < n.
Proof.
  intros Hn. split.
  - by apply min_lane_index.
  - rewrite max_lane_dual. by apply min_lane_index.
Qed.

(** C5. Whatever the element domain and whether or not NaNs occur, the cell
    the lambdas of min_kernel_impl and max_kernel_impl write through
    [indice_data] for a lane of extent at least 1 holds an integer index
    that lies in [0, extent). *)
Theorem index_in_bounds (d : Domain) (n : Z) (self_data : Z -> Scalar)
    (stride result_data indice_data : Z) (o : Outputs) :
  1 <= n ->
  (exists index,
     storage (indices (min_lambda d n result_data indice_data self_data stride o))
             indice_data = IntV index /\ 0 <= index < n) /\
  (exists index,
     storage (indices (max_lambda d n result_data indice_data self_data stride o))
             indice_data = IntV index /\ 0 <= index < n).
Proof.
  intros Hn.
  destruct (lane_index_bounds (dom_ops d) n (fun k => of_cell d (self_data k)) stride Hn)
    as [Hlo Hhi].
  rewrite min_lambda_stores, max_lambda_stores.
  cbn [result indices store storage]. rewrite !Z.eqb_refl.
  split; eexists; (split; [reflexivity|]); assumption.
Qed.

Lemma index_in_bounds_witness :
  1 <= 3 /\
  (exists index,
     storage (indices (min_lambda float_domain 3 0 0 (fun k => FloatV (lane_3_nan_1 k)) 1
                         fresh_outputs)) 0 = IntV index /\ 0 <= index < 3) /\
  (exists index,
     storage (indices (max_lambda float_domain 3 0 0 (fun k => FloatV (lane_3_nan_1 k)) 1
                         fresh_outputs)) 0 = IntV index /\ 0 <= index < 3).
Proof.
  assert (Hn : 1 <= 3) by lia.
  split; [exact Hn|].
  exact (index_in_bounds float_domain 3 (fun k => FloatV (lane_3_nan_1 k)) 1 0 0
           fresh_outputs Hn).
Defined.

(** An unordered key is a NaN and compares false against everything. *)
Lemma SFleb_nan_key_l k x : is_nan k = true -> SFleb k x = false.
Proof. by destruct k. Qed.

Lemma SFleb_nan_key_r k x : is_nan k = true -> SFleb x k = false.
Proof. destruct k; try done. intros _. apply SFleb_nan_r. Qed.

(** In any domain, a first NaN whose key compares false against everything
    poisons the lane. *)
Lemma unordered_nan_poisons {T V} (ops : ScalarOps T V) n (data : Z -> T) stride k :
  first_nan n data stride k ->
  (forall x, geb (zabs (elem data stride k)) x = false) ->
  (forall x, leb (zabs (elem data stride k)) x = false) ->
  poisoned_at n data stride k.
Proof.
  intros (Hk & Hk_nan & Hbefore) Hge Hle.
  assert (Hscan : forall other : Z -> T,
    (forall i, 0 <= i <= k -> other (i * stride) = elem data stride i) ->
    min_lane n other stride = (elem data stride k, k) /\
    max_lane n other stride = (elem data stride k, k)).
  { intros other Hsame. split.
    - unfold min_lane.
      apply (min_loop_first_nan data stride); auto; try lia;
        intros j Hj; (apply Hsame || apply Hbefore); lia.
    - rewrite max_lane_dual. unfold min_lane.
      apply (min_loop_first_nan (ops:=dual_ops ops) data stride); auto; try lia;
        intros j Hj; (apply Hsame || apply Hbefore); lia. }
  destruct (Hscan data) as [Hmin Hmax]; [reflexivity|].
  repeat split; auto; apply Hscan; auto.
Qed.

(** C2, amended. In a floating lane, and in a complex lane whose first NaN
    element has a NaN magnitude, the update fires at the first position [k]
    holding a NaN, the scan stops there, and the lane's outputs are that NaN
    and [k], whatever the lane holds after [k]. *)
Theorem nan_short_circuit :
  (forall n data stride k,
     first_nan (ops:=float_ops) n data stride k ->
     poisoned_at (ops:=float_ops) n data stride k) /\
  (forall cabs n data stride k,
     first_nan (ops:=complex_ops cabs) n data stride k ->
     is_nan (cabs (real (elem data stride k)) (imag (elem data stride k))) = true ->
     poisoned_at (ops:=complex_ops cabs) n data stride k).
Proof.
  split.
  - intros n data stride k Hk.
    assert (Hnan : is_nan (elem data stride k) = true) by apply Hk.
    apply unordered_nan_poisons; auto; intros x; simpl.
    + by apply SFleb_nan_key_r.
    + by apply SFleb_nan_key_l.
  - intros cabs n data stride k Hk Hnan.
    apply unordered_nan_poisons; auto; intros x; simpl.
    + by apply SFleb_nan_key_r.
    + by apply SFleb_nan_key_l.
Qed.

Lemma lane_3_nan_1_first_nan : first_nan (ops:=float_ops) 3 lane_3_nan_1 1 1.
Proof.
  split; [lia|]. split; [reflexivity|].
  intros j Hj. assert (j = 0) as -> by lia. reflexivity.
Defined.

(** min and max over [3.0, NaN, 1.0] yield (NaN, 1). *)
Lemma nan_short_circuit_witness :
  first_nan (ops:=float_ops) 3 lane_3_nan_1 1 1 /\
  min_lane 3 lane_3_nan_1 1 = (S754_nan, 1) /\
  max_lane 3 lane_3_nan_1 1 = (S754_nan, 1).
Proof.
  split; [exact lane_3_nan_1_first_nan|].
  destruct (proj1 nan_short_circuit 3 lane_3_nan_1 1 1 lane_3_nan_1_first_nan)
    as (Hmin & Hmax & _).
  split; [exact Hmin|exact Hmax].
Defined.

(** C2 as stated fails for complex lanes: in [1+0i, inf+NaN i] the second
    element is the first NaN, its magnitude is +inf, and the min scan keeps
    the first element. *)
Lemma nan_poisons_complex_counterexample :
  ~ nan_poisons (ops:=complex_ops cabs64) 2 lane_1_infnan 1.
Proof.
  intros H.
  assert (Hk : first_nan (ops:=complex_ops cabs64) 2 lane_1_infnan 1 1).
  { split; [lia|]. split; [reflexivity|].
    intros j Hj. assert (j = 0) as -> by lia. reflexivity. }
  destruct (H 1 Hk) as (Hmin & _).
  vm_compute in Hmin. discriminate Hmin.
Qed.

(* ===================================================================== *)
(** ** Shape bookkeeping and the checks of the reductions *)
(* ===================================================================== *)

Local Ltac run_m :=
  unfold mbind, M_bind, mret, M_ret, get, modify, when, lift, throw, TORCH_CHECK.

(** Lines 28-35 never throw; what they leave. *)
Lemma unsqueeze_outputs_run dim keepdim o :
  unsqueeze_outputs dim keepdim o =
  (Ok tt,
   if keepdim then o
   else mkOutputs
          (if ndimension (result o) >=? dim then unsqueeze_ dim (result o) else result o)
          (if ndimension (indices o) >=? dim then unsqueeze_ dim (indices o) else indices o)).
Proof.
  unfold unsqueeze_outputs. run_m. destruct keepdim; simpl; [reflexivity|].
  destruct (ndimension (result o) >=? dim); run_m; simpl;
    destruct (ndimension (indices o) >=? dim); run_m; simpl; by destruct o.
Qed.

Lemma unsqueeze_ndimension dim t : ndimension (unsqueeze_ dim t) = ndimension t + 1.
Proof.
  unfold ndimension, unsqueeze_; simpl.
  rewrite length_app; simpl. rewrite length_take, length_drop. lia.
Qed.

Lemma unsqueeze_changes dim t : unsqueeze_ dim t <> t.
Proof.
  intros H. pose proof (unsqueeze_ndimension dim t) as Hn. rewrite H in Hn. lia.
Qed.

Lemma min_lambda_shape d n : shape_preserving (min_lambda d n).
Proof. intros rp ip sd st o. unfold min_lambda. by destruct (min_lane _ _ _). Qed.

Lemma max_lambda_shape d n : shape_preserving (max_lambda d n).
Proof. intros rp ip sd st o. unfold max_lambda. by destruct (max_lane _ _ _). Qed.

Lemma loop_shape f self s n : shape_preserving f -> forall rp ip sp st o,
  sizes (result (loop f self s n rp ip sp st o)) = sizes (result o) /\
  sizes (indices (loop f self s n rp ip sp st o)) = sizes (indices o).
Proof.
  intros Hf. induction n as [|n IH]; intros rp ip sp st o; simpl; [done|].
  destruct (IH (rp + st.1.1) (ip + st.1.2) (sp + st.2) st
               (f rp ip (fun k => storage self (sp + k)) s o)) as [-> ->].
  apply Hf.
Qed.

Lemma for_each_shape f self s iter : shape_preserving f -> forall o,
  sizes (result (for_each iter (loop f self s) o)) = sizes (result o) /\
  sizes (indices (for_each iter (loop f self s) o)) = sizes (indices o).
Proof.
  intros Hf. unfold for_each.
  induction iter as [|c iter IH]; intros o; simpl; [done|].
  destruct (IH (loop f self s (Z.to_nat (count c)) (data c).1.1 (data c).1.2
                     (data c).2 (chunk_strides c) o)) as [-> ->].
  by apply loop_shape.
Qed.

Lemma resize_sizes new_sizes t t' : resize_ new_sizes t = Ok t' -> sizes t' = new_sizes.
Proof. unfold resize_. destruct (allocate t new_sizes); [|done]. by intros [= <-]. Qed.

(** Lines 36-37, run on given outputs: a failed allocation for the result
    leaves both outputs as they were, one for the indices leaves the result
    resized. *)
Lemma resize_outputs_run new_sizes o :
  resize_outputs new_sizes o =
  match resize_ new_sizes (result o) with
  | Err e => (Err e, o)
  | Ok r =>
      match resize_ new_sizes (indices o) with
      | Err e => (Err e, mkOutputs r (indices o))
      | Ok i => (Ok tt, mkOutputs r i)
      end
  end.
Proof.
  unfold resize_outputs. run_m. simpl.
  destruct (resize_ new_sizes (result o)) as [r|e]; simpl; [|reflexivity].
  destruct (resize_ new_sizes (indices o)) as [i|e]; reflexivity.
Qed.

Lemma squeeze_sizes_one d t :
  sizes t !! Z.to_nat d = Some 1 -> sizes (squeeze_ d t) = delete (Z.to_nat d) (sizes t).
Proof. intros H. unfold squeeze_. by rewrite H. Qed.

Lemma delete_insert_same {A} (l : list A) i x : delete i (<[i:=x]> l) = delete i l.
Proof.
  rewrite !delete_take_drop.
  rewrite take_insert_ge by lia. rewrite drop_insert_lt by lia. reflexivity.
Qed.

(** compare_base_kernel, run on given outputs. *)
Lemma compare_base_kernel_run self d keepdim f o :
  compare_base_kernel self d keepdim f o =
  let self_sizes := <[Z.to_nat d := 1]> (ensure_nonempty_vec (sizes self)) in
  let o1 := (unsqueeze_outputs d keepdim o).2 in
  match resize_outputs self_sizes o1 with
  | (Err e, o2) => (Err e, o2)
  | (Ok _, o2) =>
      let iter := build (sizes self) d (result o2) (indices o2) self in
      let o3 := for_each iter (loop f self (ensure_nonempty_stride self d)) o2 in
      (Ok tt, if keepdim then o3
              else mkOutputs (squeeze_ d (result o3)) (squeeze_ d (indices o3)))
  end.
Proof.
  unfold compare_base_kernel.
  unfold mbind at 1, M_bind at 1. rewrite unsqueeze_outputs_run. cbn [snd].
  unfold mbind at 1, M_bind at 1.
  destruct (resize_outputs _ _) as [[[]|e] o2]; [|reflexivity].
  run_m. simpl. destruct keepdim; reflexivity.
Qed.

(** Along a dimension of the input it leaves both outputs with the reduced
    shape, when it returns. *)
Lemma compare_base_kernel_shapes self d keepdim f o o' :
  shape_preserving f -> 0 <= d < ndimension self ->
  compare_base_kernel self d keepdim f o = (Ok tt, o') ->
  sizes (result o') = reduced_shape keepdim d (sizes self) /\
  sizes (indices o') = reduced_shape keepdim d (sizes self).
Proof.
  intros Hf Hd. rewrite compare_base_kernel_run. cbv zeta.
  assert (Hne : ensure_nonempty_vec (sizes self) = sizes self).
  { unfold ndimension in Hd. destruct (sizes self); simpl in *; [lia|done]. }
  rewrite Hne. set (self_sizes := <[Z.to_nat d:=1]> (sizes self)).
  rewrite resize_outputs_run.
  destruct (resize_ self_sizes (result _)) as [r|e] eqn:Er; [|done].
  destruct (resize_ self_sizes (indices _)) as [i|e] eqn:Ei; [|done].
  apply resize_sizes in Er, Ei.
  set (o2 := mkOutputs r i). set (iter := build _ _ _ _ _).
  destruct (for_each_shape f self (ensure_nonempty_stride self d) iter Hf o2) as [Hr Hi].
  simpl in Hr, Hi. rewrite Er in Hr. rewrite Ei in Hi.
  set (o3 := for_each iter _ o2) in *.
  intros [= <-]. unfold reduced_shape. destruct keepdim; [by split|]. simpl.
  assert (Hone : self_sizes !! Z.to_nat d = Some 1).
  { apply list_lookup_insert_eq. unfold ndimension in Hd. lia. }
  rewrite !squeeze_sizes_one by (by rewrite ?Hr, ?Hi).
  rewrite Hr, Hi. unfold self_sizes. by rewrite delete_insert_same.
Qed.

Lemma min_kernel_impl_eq : min_kernel_impl = kernel_impl min_lambda.
Proof. reflexivity. Qed.

Lemma max_kernel_impl_eq : max_kernel_impl = kernel_impl max_lambda.
Proof. reflexivity. Qed.

(** The kernels, run on given outputs. *)
Lemma kernel_impl_run lambda self dim keepdim o :
  kernel_impl lambda self dim keepdim o =
  match maybe_wrap_dim dim (ndimension self) with
  | Err e => (Err e, o)
  | Ok wrap_dim =>
      if bool_decide (scalar_type (result o) = scalar_type self)
         && bool_decide (scalar_type (indices o) = kLong)
      then match AT_DISPATCH_ALL_TYPES_AND_COMPLEX_AND_Bool (scalar_type self) with
           | Err e => (Err e, o)
           | Ok d =>
               compare_base_kernel self wrap_dim keepdim
                 (lambda d (ensure_nonempty_size self wrap_dim)) o
           end
      else (Err TypeMismatch, o)
  end.
Proof.
  unfold kernel_impl. run_m.
  destruct (maybe_wrap_dim _ _) as [wrap_dim|e]; [|reflexivity]. simpl.
  destruct (_ && _); simpl; [|reflexivity].
  destruct (AT_DISPATCH_ALL_TYPES_AND_COMPLEX_AND_Bool _); reflexivity.
Qed.

Lemma maybe_wrap_dim_ok dim ndim d :
  maybe_wrap_dim dim ndim = Ok d ->
  - Z.max ndim 1 <= dim < Z.max ndim 1 /\ 0 <= d < Z.max ndim 1.
Proof.
  unfold maybe_wrap_dim. destruct (_ && _) eqn:Hc; [|done].
  intros [= <-]. apply andb_true_iff in Hc as [H1 H2].
  destruct (dim <? 0) eqn:Hneg; lia.
Qed.

Lemma maybe_wrap_dim_err dim ndim :
  ~ (- Z.max ndim 1 <= dim < Z.max ndim 1) -> maybe_wrap_dim dim ndim = Err InvalidAxis.
Proof.
  intros H. unfold maybe_wrap_dim. destruct (_ && _) eqn:Hc; [|done].
  apply andb_true_iff in Hc as [H1 H2]. lia.
Qed.

Lemma kernel_impl_shapes lambda self dim keepdim o o' d :
  (forall d n, shape_preserving (lambda d n)) ->
  maybe_wrap_dim dim (ndimension self) = Ok d -> 0 <= d < ndimension self ->
  kernel_impl lambda self dim keepdim o = (Ok tt, o') ->
  sizes (result o') = reduced_shape keepdim d (sizes self) /\
  sizes (indices o') = reduced_shape keepdim d (sizes self).
Proof.
  intros Hf Hwrap Hd. rewrite kernel_impl_run, Hwrap.
  destruct (_ && _); [|done].
  destruct (AT_DISPATCH_ALL_TYPES_AND_COMPLEX_AND_Bool _) as [dom|e]; [|done].
  by apply compare_base_kernel_shapes.
Qed.

Lemma reduced_shape_length keepdim d (shape : list Z) :
  0 <= d < Z.of_nat (length shape) ->
  Z.of_nat (length (reduced_shape keepdim d shape))
  = if keepdim then Z.of_nat (length shape) else Z.of_nat (length shape) - 1.
Proof.
  intros Hd. unfold reduced_shape. destruct keepdim.
  - by rewrite length_insert.
  - destruct (lookup_lt_is_Some_2 shape (Z.to_nat d)) as [x Hx]; [lia|].
    rewrite length_delete by (exists x; exact Hx). lia.
Qed.

(** C3, amended. With keepdim false, an output buffer is unsqueezed at the
    axis before the resize exactly when its rank is at least the axis, and
    left as it is exactly when its rank is below the axis; with keepdim true
    neither buffer is touched before the resize. *)
Theorem unsqueeze_rule (dim : Z) (o : Outputs) :
  let o' := (unsqueeze_outputs dim false o).2 in
  (result o' = unsqueeze_ dim (result o) <-> dim <= ndimension (result o)) /\
  (result o' = result o <-> ndimension (result o) < dim) /\
  (indices o' = unsqueeze_ dim (indices o) <-> dim <= ndimension (indices o)) /\
  (indices o' = indices o <-> ndimension (indices o) < dim) /\
  (unsqueeze_outputs dim true o).2 = o.
Proof.
  rewrite !unsqueeze_outputs_run. simpl.
  pose proof (unsqueeze_changes dim (result o)) as Hr.
  pose proof (unsqueeze_changes dim (indices o)) as Hi.
  destruct (Z.geb_spec (ndimension (result o)) dim),
           (Z.geb_spec (ndimension (indices o)) dim);
    repeat split; intros; try lia; try done; exfalso; eauto.
Qed.

(** C3 as stated fails: a result of rank 1 is unsqueezed at axis 1. *)
Lemma unsqueeze_rule_spec_counterexample : ~ unsqueeze_rule_spec 1 reused_outputs.
Proof.
  intros [[H _] _].
  assert (Hrank : 1 + 1 <= ndimension (result reused_outputs)) by (apply H; reflexivity).
  vm_compute in Hrank. apply Hrank. reflexivity.
Qed.

(** C4. After a successful min or max reduction along a dimension d of an
    input of rank r, both outputs have the input's shape with dimension d
    set to 1 when keepdim is true (rank r), and with dimension d removed
    when keepdim is false (rank r-1); the two outputs have the same shape. *)
Theorem reduced_output_shapes (self : Tensor) (dim : Z) (keepdim : bool)
    (o o' : Outputs) (d : Z) :
  maybe_wrap_dim dim (ndimension self) = Ok d -> 0 <= d < ndimension self ->
  min_kernel_impl self dim keepdim o = (Ok tt, o') \/
  max_kernel_impl self dim keepdim o = (Ok tt, o') ->
  sizes (result o') = reduced_shape keepdim d (sizes self) /\
  sizes (indices o') = reduced_shape keepdim d (sizes self) /\
  sizes (indices o') = sizes (result o') /\
  ndimension (result o') = (if keepdim then ndimension self else ndimension self - 1).
Proof.
  intros Hwrap Hd H.
  assert (Hs : sizes (result o') = reduced_shape keepdim d (sizes self) /\
               sizes (indices o') = reduced_shape keepdim d (sizes self)).
  { destruct H as [H|H].
    - rewrite min_kernel_impl_eq in H.
      apply (kernel_impl_shapes min_lambda self dim keepdim o o'); try done.
      intros dom n. apply min_lambda_shape.
    - rewrite max_kernel_impl_eq in H.
      apply (kernel_impl_shapes max_lambda self dim keepdim o o'); try done.
      intros dom n. apply max_lambda_shape. }
  destruct Hs as [Hr Hi].
  repeat split; try done.
  - congruence.
  - unfold ndimension at 1. rewrite Hr. by apply reduced_shape_length.
Qed.

Lemma reduced_output_shapes_witness :
  maybe_wrap_dim (-1) (ndimension sample_self) = Ok 1 /\
  0 <= 1 < ndimension sample_self /\
  min_kernel_impl sample_self (-1) false fresh_outputs
  = (Ok tt, (min_kernel_impl sample_self (-1) false fresh_outputs).2) /\
  sizes (result (min_kernel_impl sample_self (-1) false fresh_outputs).2) = [2] /\
  sizes (indices (min_kernel_impl sample_self (-1) false fresh_outputs).2) = [2].
Proof.
  assert (Hwrap : maybe_wrap_dim (-1) (ndimension sample_self) = Ok 1) by reflexivity.
  assert (Hd : 0 <= 1 < ndimension sample_self)
    by (change (ndimension sample_self) with 2; lia).
  assert (H : min_kernel_impl sample_self (-1) false fresh_outputs
              = (Ok tt, (min_kernel_impl sample_self (-1) false fresh_outputs).2))
    by reflexivity.
  split; [exact Hwrap|]. split; [exact Hd|]. split; [exact H|].
  destruct (reduced_output_shapes sample_self (-1) false fresh_outputs _ 1
              Hwrap Hd (or_introl H)) as (Hr & Hi & _).
  split; [exact Hr|exact Hi].
Defined.

(** A rank-0 input has no dimension for the axis to name: reduced along
    axis 0 its outputs get shape [1] with keepdim and [] without. *)
Example rank0_shapes :
  sizes (result (max_kernel_impl rank0_self 0 true fresh_outputs).2) = [1] /\
  sizes (result (max_kernel_impl rank0_self 0 false fresh_outputs).2) = [].
Proof. split; reflexivity. Qed.

Lemma axis_in_range_wrap self dim :
  axis_in_range self dim -> exists d, maybe_wrap_dim dim (ndimension self) = Ok d.
Proof.
  unfold axis_in_range, maybe_wrap_dim. intros Hr.
  destruct (_ && _) eqn:Hc; [by eexists|].
  apply andb_false_iff in Hc as [Hc|Hc]; lia.
Qed.

Lemma kernel_impl_type_mismatch lambda self dim keepdim o :
  axis_in_range self dim -> type_mismatch self o ->
  kernel_impl lambda self dim keepdim o = (Err TypeMismatch, o).
Proof.
  intros Hv Ht. rewrite kernel_impl_run.
  destruct (axis_in_range_wrap self dim Hv) as (d & ->).
  destruct Ht as [Ht|Ht].
  - by rewrite (bool_decide_eq_false_2 _ Ht).
  - rewrite (bool_decide_eq_false_2 _ Ht). by rewrite andb_false_r.
Qed.

Lemma kernel_impl_out_of_range lambda self dim keepdim o :
  ~ axis_in_range self dim ->
  kernel_impl lambda self dim keepdim o = (Err InvalidAxis, o).
Proof.
  intros Hr. rewrite kernel_impl_run. by rewrite (maybe_wrap_dim_err _ _ Hr).
Qed.

(** The only error of compare_base_kernel is a failed allocation. *)
Lemma compare_base_kernel_error self d keepdim f o e o' :
  compare_base_kernel self d keepdim f o = (Err e, o') -> e = AllocationFailure.
Proof.
  rewrite compare_base_kernel_run. cbv zeta. rewrite resize_outputs_run.
  unfold resize_.
  destruct (allocate (result _) _); [|by intros [= <- _]].
  destruct (allocate (indices _) _); [done|by intros [= <- _]].
Qed.

Lemma dispatch_error st e :
  AT_DISPATCH_ALL_TYPES_AND_COMPLEX_AND_Bool st = Err e -> e = NotImplemented.
Proof. destruct st; simpl; congruence. Qed.

(** With the axis in range the kernels raise no InvalidAxis. *)
Lemma kernel_impl_in_range lambda self dim keepdim o :
  axis_in_range self dim ->
  (kernel_impl lambda self dim keepdim o).1 <> Err InvalidAxis.
Proof.
  intros Hv. rewrite kernel_impl_run.
  destruct (axis_in_range_wrap self dim Hv) as (d & ->).
  destruct (_ && _); [|done].
  destruct (AT_DISPATCH_ALL_TYPES_AND_COMPLEX_AND_Bool _) as [dom|e] eqn:Hd.
  - destruct (compare_base_kernel _ _ _ _ _) as [[[]|e] o'] eqn:Hk; [done|].
    apply compare_base_kernel_error in Hk as ->. done.
  - apply dispatch_error in Hd as ->. done.
Qed.

(** C6. When the axis is in range for the input, min_kernel_impl and
    max_kernel_impl fail with TypeMismatch whenever the result's element
    type differs from the input's or the index output's element type is not
    Long, and the outputs are as they were: nothing has been unsqueezed,
    resized or written. *)
Theorem type_check_before_mutation (self : Tensor) (dim : Z) (keepdim : bool) (o : Outputs) :
  axis_in_range self dim -> type_mismatch self o ->
  min_kernel_impl self dim keepdim o = (Err TypeMismatch, o) /\
  max_kernel_impl self dim keepdim o = (Err TypeMismatch, o).
Proof.
  intros Hv Ht. rewrite min_kernel_impl_eq, max_kernel_impl_eq.
  split; by apply kernel_impl_type_mismatch.
Qed.

Lemma sample_axis_1_in_range : axis_in_range sample_self 1.
Proof. unfold axis_in_range. change (ndimension sample_self) with 2. lia. Defined.

Lemma float_outputs_mismatch : type_mismatch sample_self float_outputs.
Proof. left. simpl. discriminate. Defined.

Lemma type_check_before_mutation_witness :
  axis_in_range sample_self 1 /\ type_mismatch sample_self float_outputs /\
  min_kernel_impl sample_self 1 false float_outputs = (Err TypeMismatch, float_outputs) /\
  max_kernel_impl sample_self 1 false float_outputs = (Err TypeMismatch, float_outputs).
Proof.
  split; [exact sample_axis_1_in_range|]. split; [exact float_outputs_mismatch|].
  exact (type_check_before_mutation sample_self 1 false float_outputs
           sample_axis_1_in_range float_outputs_mismatch).
Defined.

(** C7, amended. min_kernel_impl and max_kernel_impl fail with InvalidAxis
    whenever the axis is out of range for the input's rank, and the outputs
    are then as they were: nothing has been unsqueezed, resized or written.
    With the axis in range they raise no InvalidAxis, whatever the extent
    along it. *)
Theorem invalid_axis_before_mutation (self : Tensor) (dim : Z) (keepdim : bool) (o : Outputs) :
  (~ axis_in_range self dim ->
   min_kernel_impl self dim keepdim o = (Err InvalidAxis, o) /\
   max_kernel_impl self dim keepdim o = (Err InvalidAxis, o)) /\
  (axis_in_range self dim ->
   (min_kernel_impl self dim keepdim o).1 <> Err InvalidAxis /\
   (max_kernel_impl self dim keepdim o).1 <> Err InvalidAxis).
Proof.
  rewrite min_kernel_impl_eq, max_kernel_impl_eq.
  split; intros Hv.
  - split; by apply kernel_impl_out_of_range.
  - split; by apply kernel_impl_in_range.
Qed.

Lemma sample_axis_2_out_of_range : ~ axis_in_range sample_self 2.
Proof. unfold axis_in_range. change (ndimension sample_self) with 2. lia. Defined.

Lemma zero_extent_axis_in_range : axis_in_range zero_extent_self 1.
Proof. unfold axis_in_range. change (ndimension zero_extent_self) with 2. lia. Defined.

Lemma invalid_axis_before_mutation_witness :
  (~ axis_in_range sample_self 2 /\
   min_kernel_impl sample_self 2 false fresh_outputs = (Err InvalidAxis, fresh_outputs)) /\
  (axis_in_range zero_extent_self 1 /\
   (max_kernel_impl zero_extent_self 1 true fresh_outputs).1 <> Err InvalidAxis).
Proof.
  split.
  - split; [exact sample_axis_2_out_of_range|].
    exact (proj1 (proj1 (invalid_axis_before_mutation sample_self 2 false fresh_outputs)
                    sample_axis_2_out_of_range)).
  - split; [exact zero_extent_axis_in_range|].
    exact (proj2 (proj2 (invalid_axis_before_mutation zero_extent_self 1 true fresh_outputs)
                    zero_extent_axis_in_range)).
Defined.

Lemma zero_extent_axis_invalid : invalid_axis zero_extent_self 1.
Proof. right. exists 1. split; reflexivity. Qed.

(** C7 as stated fails: along axis 1 of an input of shape [2, 0] the extent
    is zero, and min_kernel_impl returns, having resized both outputs to
    shape [2, 1] and written their cells. *)
Lemma invalid_axis_spec_counterexample :
  ~ invalid_axis_spec zero_extent_self 1 true fresh_outputs.
Proof.
  intros H. destruct (H zero_extent_axis_invalid) as [Hmin _].
  apply (f_equal fst) in Hmin. vm_compute in Hmin. discriminate Hmin.
Qed.

(** What the reduction along the zero-extent axis leaves: outputs of shape
    [2, 1], no error. *)
Example zero_extent_run :
  let '(r, o) := min_kernel_impl zero_extent_self 1 true fresh_outputs in
  r = Ok tt /\ sizes (result o) = [2; 1] /\ sizes (indices o) = [2; 1] /\
  cells (indices o) 2 = [IntV 0; IntV 0].
Proof. vm_compute. repeat split. Qed.

(** A failed allocation surfaces after the unsqueeze of lines 28-35: the
    outputs come back with rank 2. *)
Example allocation_failure :
  let '(r, o) := min_kernel_impl sample_self 1 false starved_outputs in
  r = Err AllocationFailure /\ sizes (result o) = [0; 1] /\ sizes (indices o) = [0; 1].
Proof. vm_compute. repeat split. Qed.



(** The scenario of the specification: [[1,5,2],[9,0,3]] along axis 1,
    keepdim false, gives min values [1,0] at [0,1] and max values [5,9] at
    [1,0], in outputs of shape [2]. *)
Example scenario_min :
  let '(r, o) := min_kernel_impl sample_self 1 false fresh_outputs in
  r = Ok tt /\ sizes (result o) = [2] /\ sizes (indices o) = [2] /\
  cells (result o) 2 = [IntV 1; IntV 0] /\ cells (indices o) 2 = [IntV 0; IntV 1].
Proof. vm_compute. repeat split. Qed.

Example scenario_max :
  let '(r, o) := max_kernel_impl sample_self 1 false reused_outputs in
  r = Ok tt /\ sizes (result o) = [2] /\ sizes (indices o) = [2] /\
  cells (result o) 2 = [IntV 5; IntV 9] /\ cells (indices o) 2 = [IntV 1; IntV 0].
Proof. vm_compute. repeat split. Qed.

(** Complex ordering: among [3+4i, 1+1i] the min scan selects 1+1i at 1. *)
Example complex_min_by_magnitude :
  cabs64 (double_of_Z 3) (double_of_Z 4) = double_of_Z 5 /\
  min_lane (ops:=complex_ops cabs64) 2 lane_3_4i_1_1i 1
  = (Complex (double_of_Z 1) (double_of_Z 1), 1).
Proof. vm_compute. split; reflexivity. Qed.

(** The magnitude is rounded once: components near the top and the bottom
    of the double range give 5 * 2^600, 5 * 2^-600 and the subnormal
    5 * 2^-1074, and two components 2^1023 a finite magnitude. *)
Example hypot_large_and_tiny :
  cabs64 (binary_normalize 53 1024 3 600 false) (binary_normalize 53 1024 4 600 false)
  = binary_normalize 53 1024 5 600 false /\
  cabs64 (binary_normalize 53 1024 3 (-600) false) (binary_normalize 53 1024 4 (-600) false)
  = binary_normalize 53 1024 5 (-600) false /\
  cabs64 (binary_normalize 53 1024 3 (-1074) false) (binary_normalize 53 1024 4 (-1074) false)
  = binary_normalize 53 1024 5 (-1074) false /\
  cabs64 (binary_normalize 53 1024 1 1023 false) (binary_normalize 53 1024 1 1023 false)
  = S754_finite false 6369051672525773 971 /\
  cabs64 (S754_zero true) (binary_normalize 53 1024 (-4) 0 false) = double_of_Z 4.
Proof. vm_compute. repeat split. Qed.




(** A boolean input [[true, false, false]] reduced along axis 1: the least
    value false at 1, the greatest true at 0. *)
Example scenario_bool :
  let '(r, o) := min_kernel_impl bool_self 1 false bool_outputs in
  let '(r', o') := max_kernel_impl bool_self 1 false bool_outputs in
  r = Ok tt /\ cells (result o) 1 = [BoolV false] /\ cells (indices o) 1 = [IntV 1] /\
  r' = Ok tt /\ cells (result o') 1 = [BoolV true] /\ cells (indices o') 1 = [IntV 0].
Proof. vm_compute. repeat split. Qed.

(* ===================================================================== *)
(** ** The element-wise kernels *)
(* ===================================================================== *)

Lemma map3_lookup {A B C D} (f : A -> B -> C -> D) la lb lc i a b c :
  la !! i = Some a -> lb !! i = Some b -> lc !! i = Some c ->
  map3 f la lb lc !! i = Some (f a b c).
Proof.
  revert lb lc i. induction la as [|a' la IH]; intros [|b' lb] [|c' lc] [|i];
    simpl; try done.
  - by intros [= ->] [= ->] [= ->].
  - apply IH.
Qed.

Lemma map3_bytes {T} (bytes : list Z) (a b : list T) :
  map3 (fun c x y => where_byte (as_int c) x y) (IntV <$> bytes) a b
  = select_spec (truthy <$> bytes) a b.
Proof.
  revert a b. induction bytes as [|z bytes IH]; intros [|x a] [|y b]; simpl; try done.
  unfold select_spec in *. simpl. by rewrite IH.
Qed.

Lemma map3_native {T} (cond : list bool) (a b : list T) :
  map3 (fun c x y => where_bool (as_bool c) x y) (BoolV <$> cond) a b
  = select_spec cond a b.
Proof.
  revert a b. induction cond as [|c cond IH]; intros [|x a] [|y b]; simpl; try done.
  unfold select_spec in *. simpl. by rewrite IH.
Qed.

(** C8. For a dispatched element type, [where] run on condition bytes and
    [where] run on native booleans standing for the same logical condition
    both return, and leave the same output, the ternary select of the
    logical condition: at every position the element of [a] where the
    condition holds (the byte is not zero) and the element of [b] otherwise. *)
Theorem where_select (dt : ScalarType) (d : Domain) (bytes : list Z) (cond : list bool)
    (a b out : list Scalar) :
  AT_DISPATCH_ALL_TYPES_AND_COMPLEX dt = Ok d ->
  truthy <$> bytes = cond ->
  exists it_bytes it_native,
    where_kernel_impl (where_iter_bytes dt bytes a b out) Byte = Ok it_bytes /\
    where_kernel_impl (where_iter_native dt cond a b out) Bool = Ok it_native /\
    output it_bytes = select_spec cond a b /\
    output it_native = select_spec cond a b /\
    (forall i z x y, bytes !! i = Some z -> a !! i = Some x -> b !! i = Some y ->
       output it_bytes !! i = Some (if negb (z =? 0) then x else y) /\
       output it_native !! i = Some (if negb (z =? 0) then x else y)).
Proof.
  intros Hd Hcond. unfold where_kernel_impl, where_iter_bytes, where_iter_native.
  simpl. rewrite Hd. simpl.
  eexists; eexists. split; [reflexivity|]. split; [reflexivity|].
  unfold cpu_kernel3; simpl.
  rewrite map3_bytes, map3_native, Hcond.
  split; [reflexivity|]. split; [reflexivity|].
  intros i z x y Hz Hx Hy.
  assert (Hc : cond !! i = Some (truthy z)).
  { rewrite <- Hcond. by rewrite list_lookup_fmap, Hz. }
  unfold select_spec. rewrite (map3_lookup _ _ _ _ _ _ _ _ Hc Hx Hy).
  done.
Qed.

Lemma where_select_witness :
  exists it_bytes it_native,
    where_kernel_impl
      (where_iter_bytes Long [1; 0; 255] [IntV 10; IntV 20; IntV 30]
                        [IntV 11; IntV 21; IntV 31] []) Byte = Ok it_bytes /\
    where_kernel_impl
      (where_iter_native Long [true; false; true] [IntV 10; IntV 20; IntV 30]
                         [IntV 11; IntV 21; IntV 31] []) Bool = Ok it_native /\
    output it_bytes = [IntV 10; IntV 21; IntV 30] /\
    output it_native = [IntV 10; IntV 21; IntV 30].
Proof.
  destruct (where_select Long int_domain [1; 0; 255] [true; false; true]
              [IntV 10; IntV 20; IntV 30] [IntV 11; IntV 21; IntV 31] []
              eq_refl eq_refl)
    as (it_bytes & it_native & H1 & H2 & H3 & H4 & _).
  exists it_bytes, it_native. repeat split; assumption.
Defined.

(** C9. [isposinf] is true exactly at +infinity and [isneginf] exactly at
    -infinity: both are false at NaN, at every zero and finite value and at
    the opposite infinity; and for Float, Double, Half and BFloat16 inputs
    the kernels return and store these tests element by element. *)
Theorem infinity_predicates :
  (forall x : spec_float,
     (isposinf x = true <-> x = S754_infinity false) /\
     (isneginf x = true <-> x = S754_infinity true)) /\
  (forall dt xs out, floating dt ->
     isposinf_kernel_impl (float_iter dt xs out)
     = Ok (set_output (float_iter dt xs out) ((fun x => BoolV (isposinf x)) <$> xs)) /\
     isneginf_kernel_impl (float_iter dt xs out)
     = Ok (set_output (float_iter dt xs out) ((fun x => BoolV (isneginf x)) <$> xs))).
Proof.
  split.
  - intros x. unfold isposinf, isneginf, SFeqb.
    destruct x as [[]|[]| |[] m e]; simpl; split; split; intros H; done.
  - intros dt xs out Hdt.
    unfold isposinf_kernel_impl, isneginf_kernel_impl, float_iter, cpu_kernel1, set_output.
    simpl.
    assert (Hd : AT_DISPATCH_FLOATING_TYPES_AND2_Half_BFloat16 dt = Ok float_domain).
    { destruct Hdt as [->|[->|[->| ->]]]; reflexivity. }
    rewrite Hd. simpl. rewrite <- !list_fmap_compose. done.
Qed.

Lemma infinity_predicates_witness :
  floating Half /\
  isposinf_kernel_impl
    (float_iter Half [infinity; SFopp infinity; S754_nan; double_of_Z 1] [])
  = Ok (set_output
          (float_iter Half [infinity; SFopp infinity; S754_nan; double_of_Z 1] [])
          [BoolV true; BoolV false; BoolV false; BoolV false]).
Proof.
  assert (H : floating Half) by (right; right; left; reflexivity).
  split; [exact H|].
  exact (proj1 (proj2 infinity_predicates Half
                  [infinity; SFopp infinity; S754_nan; double_of_Z 1] [] H)).
Defined.

(* ===================================================================== *)
(** ** Further properties of the lane scans *)
(* ===================================================================== *)

Section LaneMore.
Context {T V : Type} {ops : ScalarOps T V}.
Variable n : Z.
Variable data : Z -> T.
Variable stride : Z.

Local Abbreviation el := (elem data stride).

Lemma min_loop_value_at fuel : forall i m idx,
  m = el idx ->
  (min_loop data stride fuel i m idx).1 = el (min_loop data stride fuel i m idx).2.
Proof.
  induction fuel as [|fuel IH]; intros i m idx Hm; simpl; [done|].
  destruct (negb _).
  - destruct (_isnan _); [reflexivity|]. by apply IH.
  - by apply IH.
Qed.

Lemma min_lane_value_at :
  (min_lane n data stride).1 = el (min_lane n data stride).2.
Proof. unfold min_lane. by apply min_loop_value_at. Qed.

(** The loop reads the lane only at the positions it visits. *)
Lemma min_loop_ext (other : Z -> T) fuel : forall i m idx,
  (forall j, i <= j < i + Z.of_nat fuel -> other (j * stride) = data (j * stride)) ->
  min_loop other stride fuel i m idx = min_loop data stride fuel i m idx.
Proof.
  induction fuel as [|fuel IH]; intros i m idx Hsame; simpl; [done|].
  rewrite (Hsame i) by lia.
  destruct (negb _).
  - destruct (_isnan _); [reflexivity|]. apply IH. intros j Hj. apply Hsame. lia.
  - apply IH. intros j Hj. apply Hsame. lia.
Qed.

Lemma min_lane_ext (other : Z -> T) :
  other 0 = data 0 ->
  (forall i, 0 <= i < n -> other (i * stride) = data (i * stride)) ->
  min_lane n other stride = min_lane n data stride.
Proof.
  intros H0 Hsame. unfold min_lane. rewrite H0.
  apply min_loop_ext. intros j Hj. apply Hsame. lia.
Qed.

(** With at most one element the loop leaves what it started with. *)
Lemma min_lane_short : n <= 1 -> min_lane n data stride = (data 0, 0).
Proof.
  intros Hn. unfold min_lane.
  destruct (Z.to_nat n) as [|[|k]] eqn:Hk; [done| |lia].
  simpl. destruct (negb _); [|done]. by destruct (_isnan _).
Qed.

(** Two pairs that both are the first minimum of the lane are the same. *)
Lemma first_min_unique (r r' : T * Z) :
  first_min n data stride r -> first_min n data stride r' -> r = r'.
Proof.
  intros (Hi & Hv & Hall & Hfirst) (Hi' & Hv' & Hall' & Hfirst').
  assert (Heq : r.2 = r'.2).
  { destruct (Z.lt_trichotomy r.2 r'.2) as [Hlt|[Heq|Hgt]]; [|done|].
    - specialize (Hfirst' r.2 ltac:(lia)). specialize (Hall r'.2 Hi').
      rewrite <- Hv' in Hall. rewrite <- Hv in Hfirst'. congruence.
    - specialize (Hfirst r'.2 ltac:(lia)). specialize (Hall' r.2 Hi).
      rewrite <- Hv in Hall'. rewrite <- Hv' in Hfirst. congruence. }
  destruct r as [v i], r' as [v' i']. simpl in *. subst. reflexivity.
Qed.
End LaneMore.

(** X1. In every element domain and for every extent, NaN or not, the value
    the min and max lambdas store is the element of the lane at the index
    they store. *)
Theorem stored_value_at_stored_index {T V} (ops : ScalarOps T V)
    (n : Z) (data : Z -> T) (stride : Z) :
  (min_lane n data stride).1 = elem data stride (min_lane n data stride).2 /\
  (max_lane n data stride).1 = elem data stride (max_lane n data stride).2.
Proof.
  split.
  - apply min_lane_value_at.
  - rewrite max_lane_dual. apply (min_lane_value_at (ops:=dual_ops ops)).
Qed.

(** X2. For every extent, also zero or negative, the index the lambdas store
    lies between 0 and max(0, extent - 1): it is never negative, and it is 0
    when the axis is empty. *)
Theorem index_bounds_any_extent {T V} (ops : ScalarOps T V)
    (n : Z) (data : Z -> T) (stride : Z) :
  0 <= (min_lane n data stride).2 <= Z.max 0 (n - 1) /\
  0 <= (max_lane n data stride).2 <= Z.max 0 (n - 1).
Proof.
  split.
  - unfold min_lane.
    destruct (min_loop_index data stride (Z.to_nat n) 0 (data 0) 0) as [->|?]; lia.
  - rewrite max_lane_dual. unfold min_lane.
    destruct (min_loop_index (ops:=dual_ops ops) data stride (Z.to_nat n) 0 (data 0) 0)
      as [->|?]; lia.
Qed.

(** X3. On a lane of at most one element (extent 1, 0 or negative) the
    lambdas store [self_data[0]] and index 0, whatever that element is, a
    NaN included. *)
Theorem short_lane_first_element {T V} (ops : ScalarOps T V)
    (n : Z) (data : Z -> T) (stride : Z) :
  n <= 1 ->
  min_lane n data stride = (data 0, 0) /\ max_lane n data stride = (data 0, 0).
Proof.
  intros Hn. split.
  - by apply min_lane_short.
  - rewrite max_lane_dual. by apply (min_lane_short (ops:=dual_ops ops)).
Qed.

Lemma short_lane_first_element_witness :
  (1 <= 1 /\ min_lane 1 lane_nan 1 = (S754_nan, 0)) /\
  (0 <= 1 /\ max_lane 0 lane_3_1_1 1 = (double_of_Z 3, 0)).
Proof.
  assert (H1 : 1 <= 1) by lia. assert (H0 : 0 <= 1) by lia.
  split.
  - split; [exact H1|].
    exact (proj1 (short_lane_first_element float_ops 1 lane_nan 1 H1)).
  - split; [exact H0|].
    exact (proj2 (short_lane_first_element float_ops 0 lane_3_1_1 1 H0)).
Defined.

(** X4. The lambdas read [self_data[0]] and the lane positions
    [i * self_dim_stride] for 0 <= i < extent, and nothing else: two buffers
    that agree there give the same value and index. *)
Theorem scan_reads_only_the_lane {T V} (ops : ScalarOps T V)
    (n : Z) (data other : Z -> T) (stride : Z) :
  other 0 = data 0 ->
  (forall i, 0 <= i < n -> other (i * stride) = data (i * stride)) ->
  min_lane n other stride = min_lane n data stride /\
  max_lane n other stride = max_lane n data stride.
Proof.
  intros H0 Hsame. split.
  - by apply min_lane_ext.
  - rewrite !max_lane_dual. by apply (min_lane_ext (ops:=dual_ops ops)).
Qed.

Lemma scan_reads_only_the_lane_witness :
  lane_3_1_1_0 0 = lane_3_1_1 0 /\
  (forall i, 0 <= i < 3 -> lane_3_1_1_0 (i * 1) = lane_3_1_1 (i * 1)) /\
  lane_3_1_1_0 3 <> lane_3_1_1 3 /\
  min_lane 3 lane_3_1_1_0 1 = min_lane 3 lane_3_1_1 1 /\
  max_lane 3 lane_3_1_1_0 1 = max_lane 3 lane_3_1_1 1.
Proof.
  assert (H0 : lane_3_1_1_0 0 = lane_3_1_1 0) by reflexivity.
  assert (Hsame : forall i, 0 <= i < 3 -> lane_3_1_1_0 (i * 1) = lane_3_1_1 (i * 1)).
  { intros i Hi. assert (Hc : i = 0 \/ i = 1 \/ i = 2) by lia.
    destruct Hc as [->|[->| ->]]; reflexivity. }
  split; [exact H0|]. split; [exact Hsame|].
  split; [vm_compute; discriminate|].
  exact (scan_reads_only_the_lane float_ops 3 lane_3_1_1 lane_3_1_1_0 1 H0 Hsame).
Defined.

(** X5. On a lane of extent at least 1 without NaN, in a domain satisfying
    the order laws, what the min lambda stores is the only pair that is the
    first minimum of the lane (minimal key, every earlier key strictly
    above), and what the max lambda stores the only pair that is the first
    maximum. *)
Theorem first_extremum_characterizes {T V} (ops : ScalarOps T V) (laws : ScalarLaws T V)
    (n : Z) (data : Z -> T) (stride : Z) (r : T * Z) :
  1 <= n -> no_nan n data stride ->
  (first_min n data stride r <-> r = min_lane n data stride) /\
  (first_max n data stride r <-> r = max_lane n data stride).
Proof.
  intros Hn Hnan.
  pose proof (min_lane_first_min n data stride Hn Hnan) as Hmin.
  pose proof (min_lane_first_min (ops:=dual_ops ops) n data stride
                (ScalarLaws0:=dual_laws ops laws) Hn Hnan) as Hmax.
  rewrite <- max_lane_dual in Hmax.
  split; split.
  - intros Hr. by apply (first_min_unique n data stride).
  - by intros ->.
  - intros Hr. by apply (first_min_unique (ops:=dual_ops ops) n data stride).
  - by intros ->.
Qed.

Lemma lane_4_2_7_2_9_no_nan : no_nan 5 lane_4_2_7_2_9 1.
Proof. intros i Hi. reflexivity. Defined.

Lemma first_extremum_characterizes_witness :
  1 <= 5 /\ no_nan 5 lane_4_2_7_2_9 1 /\
  first_min 5 lane_4_2_7_2_9 1 (2, 1) /\ first_max 5 lane_4_2_7_2_9 1 (9, 4).
Proof.
  assert (Hn : 1 <= 5) by lia.
  split; [exact Hn|]. split; [exact lane_4_2_7_2_9_no_nan|].
  destruct (first_extremum_characterizes int_ops int_laws 5 lane_4_2_7_2_9 1 (2, 1)
              Hn lane_4_2_7_2_9_no_nan) as [[_ Hmin] _].
  destruct (first_extremum_characterizes int_ops int_laws 5 lane_4_2_7_2_9 1 (9, 4)
              Hn lane_4_2_7_2_9_no_nan) as [_ [_ Hmax]].
  split; [apply Hmin|apply Hmax]; reflexivity.
Defined.

Section LaneOrder.
Context {T V : Type} {ops : ScalarOps T V} {laws : ScalarLaws T V}.
Variable n : Z.
Variable data : Z -> T.
Variable stride : Z.
Hypothesis Hn : 1 <= n.
Hypothesis Hnan : no_nan n data stride.

Local Abbreviation el := (elem data stride).

Lemma first_max_max_lane : first_max n data stride (max_lane n data stride).
Proof.
  rewrite max_lane_dual.
  exact (min_lane_first_min (ops:=dual_ops ops) n data stride
           (ScalarLaws0:=dual_laws ops laws) Hn Hnan).
Qed.

Lemma min_key_below_max_key :
  leb (zabs (min_lane n data stride).1) (zabs (max_lane n data stride).1) = true.
Proof.
  destruct (min_lane_first_min n data stride Hn Hnan) as (Hi & Hv & _).
  destruct first_max_max_lane as (_ & _ & Hall & _).
  rewrite Hv. by apply Hall.
Qed.

Lemma same_index_iff_keys_equal :
  (min_lane n data stride).2 = (max_lane n data stride).2 <-> all_keys_equal n data stride.
Proof.
  destruct (min_lane_first_min n data stride Hn Hnan) as (Hi & Hv & Hall & Hfirst).
  destruct first_max_max_lane as (Hi' & Hv' & Hall' & Hfirst').
  split.
  - intros Heq j k Hj Hk.
    assert (Hvv : (max_lane n data stride).1 = (min_lane n data stride).1)
      by (rewrite Hv, Hv', Heq; reflexivity).
    apply geb_trans with (zabs (min_lane n data stride).1); [by apply Hall|].
    specialize (Hall' k Hk). rewrite leb_geb, Hvv in Hall'. exact Hall'.
  - intros Hkeys.
    assert (H0 : (min_lane n data stride).2 = 0).
    { destruct (Z.eq_dec (min_lane n data stride).2 0) as [|Hne]; [done|].
      specialize (Hfirst 0 ltac:(lia)). rewrite Hv in Hfirst.
      rewrite (Hkeys _ 0 Hi ltac:(lia)) in Hfirst. done. }
    assert (H0' : (max_lane n data stride).2 = 0).
    { destruct (Z.eq_dec (max_lane n data stride).2 0) as [|Hne]; [done|].
      specialize (Hfirst' 0 ltac:(lia)). rewrite Hv', leb_geb in Hfirst'.
      rewrite (Hkeys 0 _ ltac:(lia) Hi') in Hfirst'. done. }
    congruence.
Qed.

Lemma keys_equal_index_0 :
  all_keys_equal n data stride ->
  (min_lane n data stride).2 = 0 /\ (max_lane n data stride).2 = 0.
Proof.
  intros Hkeys.
  destruct (min_lane_first_min n data stride Hn Hnan) as (Hi & Hv & Hall & Hfirst).
  destruct first_max_max_lane as (Hi' & Hv' & Hall' & Hfirst').
  split.
  - destruct (Z.eq_dec (min_lane n data stride).2 0) as [|Hne]; [done|].
    specialize (Hfirst 0 ltac:(lia)). rewrite Hv in Hfirst.
    rewrite (Hkeys _ 0 Hi ltac:(lia)) in Hfirst. done.
  - destruct (Z.eq_dec (max_lane n data stride).2 0) as [|Hne]; [done|].
    specialize (Hfirst' 0 ltac:(lia)). rewrite Hv', leb_geb in Hfirst'.
    rewrite (Hkeys 0 _ ltac:(lia) Hi') in Hfirst'. done.
Qed.
End LaneOrder.

(** X6. On a lane of extent at least 1 without NaN, the key of the stored
    minimum is below or equal to the key of the stored maximum; the min and
    max lambdas store the same index exactly when all the keys of the lane
    compare as equal, and that index is then 0. *)
Theorem min_and_max_of_a_lane {T V} (ops : ScalarOps T V) (laws : ScalarLaws T V)
    (n : Z) (data : Z -> T) (stride : Z) :
  1 <= n -> no_nan n data stride ->
  leb (zabs (min_lane n data stride).1) (zabs (max_lane n data stride).1) = true /\
  ((min_lane n data stride).2 = (max_lane n data stride).2
   <-> all_keys_equal n data stride) /\
  (all_keys_equal n data stride ->
   (min_lane n data stride).2 = 0 /\ (max_lane n data stride).2 = 0).
Proof.
  intros Hn Hnan. split; [|split].
  - by apply min_key_below_max_key.
  - by apply same_index_iff_keys_equal.
  - by apply keys_equal_index_0.
Qed.

Lemma lane_5_5_5_no_nan : no_nan 3 lane_5_5_5 1.
Proof. intros i Hi. reflexivity. Defined.

Lemma lane_5_5_5_keys_equal : all_keys_equal 3 lane_5_5_5 1.
Proof.
  intros j k Hj Hk.
  assert (Hcj : j = 0 \/ j = 1 \/ j = 2) by lia.
  assert (Hck : k = 0 \/ k = 1 \/ k = 2) by lia.
  destruct Hcj as [->|[->| ->]], Hck as [->|[->| ->]]; reflexivity.
Defined.

Lemma min_and_max_of_a_lane_witness :
  1 <= 3 /\ no_nan 3 lane_5_5_5 1 /\ all_keys_equal 3 lane_5_5_5 1 /\
  (min_lane 3 lane_5_5_5 1).2 = 0 /\ (max_lane 3 lane_5_5_5 1).2 = 0.
Proof.
  assert (Hn : 1 <= 3) by lia.
  split; [exact Hn|]. split; [exact lane_5_5_5_no_nan|].
  split; [exact lane_5_5_5_keys_equal|].
  exact (proj2 (proj2 (min_and_max_of_a_lane int_ops int_laws 3 lane_5_5_5 1
                         Hn lane_5_5_5_no_nan)) lane_5_5_5_keys_equal).
Defined.

(** Negation reverses the IEEE order and keeps NaN. *)
Lemma SFleb_opp a b : SFleb (SFopp a) (SFopp b) = SFleb b a.
Proof.
  destruct a as [[]|[]| |[] ma ea], b as [[]|[]| |[] mb eb];
    unfold SFleb; simpl; try done;
    cmp_cases; simpl; try done; lia.
Qed.

Lemma is_nan_opp a : is_nan (SFopp a) = is_nan a.
Proof. by destruct a. Qed.

Lemma SFopp_involutive a : SFopp (SFopp a) = a.
Proof. destruct a as [[]|[]| |[] m e]; reflexivity. Qed.

Lemma float_min_loop_opp (data : Z -> spec_float) stride fuel : forall i m idx,
  min_loop (fun q => SFopp (data q)) stride fuel i (SFopp m) idx
  = (SFopp (max_loop data stride fuel i m idx).1, (max_loop data stride fuel i m idx).2).
Proof.
  induction fuel as [|fuel IH]; intros i m idx; simpl; [done|].
  rewrite SFleb_opp, is_nan_opp.
  destruct (negb (SFleb (data (i * stride)) m)).
  - destruct (is_nan _); [done|]. apply IH.
  - apply IH.
Qed.

(** X7. In the floating domain the max scan is the min scan of the negated
    lane, NaNs included: the min lambda run on the negated elements stores
    the negation of what the max lambda stores on the lane, at the same
    index, and the other way round. *)
Theorem max_is_min_of_negated (n : Z) (data : Z -> spec_float) (stride : Z) :
  min_lane n (fun q => SFopp (data q)) stride
  = (SFopp (max_lane n data stride).1, (max_lane n data stride).2) /\
  max_lane n (fun q => SFopp (data q)) stride
  = (SFopp (min_lane n data stride).1, (min_lane n data stride).2).
Proof.
  split.
  - unfold min_lane, max_lane. apply float_min_loop_opp.
  - unfold min_lane at 1 2, max_lane.
    pose proof (float_min_loop_opp (fun q => SFopp (data q)) stride
                  (Z.to_nat n) 0 (SFopp (data 0)) 0) as H.
    rewrite SFopp_involutive in H.
    assert (Hext : min_loop (fun q => SFopp (SFopp (data q))) stride (Z.to_nat n) 0 (data 0) 0
                   = min_loop data stride (Z.to_nat n) 0 (data 0) 0).
    { apply min_loop_ext. intros j Hj. apply SFopp_involutive. }
    rewrite Hext in H. rewrite H. simpl. rewrite SFopp_involutive.
    by destruct (max_loop _ _ _ _ _ _).
Qed.

Lemma elem_shifted {T} (data : Z -> T) stride n1 j :
  elem (shifted data (n1 * stride)) stride j = elem data stride (n1 + j).
Proof. unfold elem, shifted. f_equal. lia. Qed.

(** The scan of a lane from the scans of its two parts. *)
Lemma min_lane_split {T V} (ops : ScalarOps T V) (laws : ScalarLaws T V)
    (n1 n2 : Z) (data : Z -> T) (stride : Z) :
  1 <= n1 -> 1 <= n2 -> no_nan (n1 + n2) data stride ->
  min_lane (n1 + n2) data stride
  = (if geb (zabs (min_lane n2 (shifted data (n1 * stride)) stride).1)
            (zabs (min_lane n1 data stride).1)
     then min_lane n1 data stride
     else ((min_lane n2 (shifted data (n1 * stride)) stride).1,
           n1 + (min_lane n2 (shifted data (n1 * stride)) stride).2)).
Proof.
  intros Hn1 Hn2 Hnan.
  assert (Hnan1 : no_nan n1 data stride) by (intros i Hi; apply Hnan; lia).
  assert (Hnan2 : no_nan n2 (shifted data (n1 * stride)) stride).
  { intros i Hi. rewrite elem_shifted. apply Hnan. lia. }
  destruct (min_lane_first_min n1 data stride Hn1 Hnan1) as (Hi1 & Hv1 & Hall1 & Hfirst1).
  destruct (min_lane_first_min n2 _ stride Hn2 Hnan2) as (Hi2 & Hv2 & Hall2 & Hfirst2).
  set (r1 := min_lane n1 data stride) in *.
  set (r2 := min_lane n2 (shifted data (n1 * stride)) stride) in *.
  rewrite elem_shifted in Hv2.
  assert (Hall2' : forall j, n1 <= j < n1 + n2 ->
                     geb (zabs (elem data stride j)) (zabs r2.1) = true).
  { intros j Hj. specialize (Hall2 (j - n1) ltac:(lia)).
    rewrite elem_shifted in Hall2. by replace (n1 + (j - n1)) with j in Hall2 by lia. }
  assert (Hfirst2' : forall j, n1 <= j < n1 + r2.2 ->
                       geb (zabs r2.1) (zabs (elem data stride j)) = false).
  { intros j Hj. specialize (Hfirst2 (j - n1) ltac:(lia)).
    rewrite elem_shifted in Hfirst2. by replace (n1 + (j - n1)) with j in Hfirst2 by lia. }
  assert (Hord1 : ordered (zabs r1.1) = true).
  { rewrite Hv1. apply nonnan_ordered, Hnan. lia. }
  assert (Hord2 : ordered (zabs r2.1) = true).
  { rewrite Hv2. apply nonnan_ordered, Hnan. lia. }
  assert (Hn12 : 1 <= n1 + n2) by lia.
  pose proof (min_lane_first_min (n1 + n2) data stride Hn12 Hnan) as Hwhole.
  symmetry. apply (first_min_unique (n1 + n2) data stride); [|exact Hwhole].
  clear Hwhole.
  destruct (geb (zabs r2.1) (zabs r1.1)) eqn:Hcmp.
  - repeat split; try done; try lia.
    intros j Hj. destruct (Z.lt_ge_cases j n1) as [Hlt|Hge].
    + apply Hall1. lia.
    + apply geb_trans with (zabs r2.1); [apply Hall2'; lia|done].
  - assert (H12 : geb (zabs r1.1) (zabs r2.1) = true).
    { destruct (geb_total _ _ Hord1 Hord2) as [?|?]; [done|congruence]. }
    repeat split; simpl; try done; try lia.
    + intros j Hj. destruct (Z.lt_ge_cases j n1) as [Hlt|Hge].
      * apply geb_trans with (zabs r1.1); [apply Hall1; lia|done].
      * apply Hall2'. lia.
    + intros j Hj. destruct (Z.lt_ge_cases j n1) as [Hlt|Hge].
      * destruct (geb (zabs r2.1) (zabs (elem data stride j))) eqn:Hj2; [|done].
        rewrite <- Hcmp. symmetry.
        apply geb_trans with (zabs (elem data stride j)); [done|apply Hall1; lia].
      * apply Hfirst2'. lia.
Qed.

(** X8. The scans compose: on a lane without NaN cut into a first part of
    n1 >= 1 elements and a second part of n2 >= 1 elements, the min lambda
    on the whole lane stores what it stores on the first part unless the
    minimum of the second part has a strictly smaller key, and then that
    minimum with its index moved by n1; likewise the max lambda. *)
Theorem scan_of_two_parts {T V} (ops : ScalarOps T V) (laws : ScalarLaws T V)
    (n1 n2 : Z) (data : Z -> T) (stride : Z) :
  1 <= n1 -> 1 <= n2 -> no_nan (n1 + n2) data stride ->
  min_lane (n1 + n2) data stride
  = (if geb (zabs (min_lane n2 (shifted data (n1 * stride)) stride).1)
            (zabs (min_lane n1 data stride).1)
     then min_lane n1 data stride
     else ((min_lane n2 (shifted data (n1 * stride)) stride).1,
           n1 + (min_lane n2 (shifted data (n1 * stride)) stride).2)) /\
  max_lane (n1 + n2) data stride
  = (if leb (zabs (max_lane n2 (shifted data (n1 * stride)) stride).1)
            (zabs (max_lane n1 data stride).1)
     then max_lane n1 data stride
     else ((max_lane n2 (shifted data (n1 * stride)) stride).1,
           n1 + (max_lane n2 (shifted data (n1 * stride)) stride).2)).
Proof.
  intros Hn1 Hn2 Hnan. split.
  - by apply min_lane_split.
  - rewrite !max_lane_dual.
    exact (min_lane_split (dual_ops ops) (dual_laws ops laws) n1 n2 data stride
             Hn1 Hn2 Hnan).
Qed.

Lemma scan_of_two_parts_witness :
  1 <= 2 /\ 1 <= 3 /\ no_nan (2 + 3) lane_4_2_7_2_9 1 /\
  min_lane (2 + 3) lane_4_2_7_2_9 1 = min_lane 2 lane_4_2_7_2_9 1 /\
  max_lane (2 + 3) lane_4_2_7_2_9 1
  = ((max_lane 3 (shifted lane_4_2_7_2_9 (2 * 1)) 1).1,
     2 + (max_lane 3 (shifted lane_4_2_7_2_9 (2 * 1)) 1).2).
Proof.
  assert (H1 : 1 <= 2) by lia. assert (H2 : 1 <= 3) by lia.
  split; [exact H1|]. split; [exact H2|]. split; [exact lane_4_2_7_2_9_no_nan|].
  exact (scan_of_two_parts int_ops int_laws 2 3 lane_4_2_7_2_9 1 H1 H2
           lane_4_2_7_2_9_no_nan).
Defined.

(* ===================================================================== *)
(** ** Further properties of compare_base_kernel and the kernels *)
(* ===================================================================== *)

Lemma min_lambda_storing d n : storing (min_lambda d n) (min_stored d n).
Proof. intros rp ip sd st o. apply min_lambda_stores. Qed.

Lemma max_lambda_storing d n : storing (max_lambda d n) (max_stored d n).
Proof. intros rp ip sd st o. apply max_lambda_stores. Qed.

Section LoopCells.
Variable f : lane_fn.
Variable stored : (Z -> Scalar) -> Z -> Scalar * Z.
Hypothesis Hf : storing f stored.
Variable self : Tensor.
Variable s : Z.

(** The loop leaves every cell it does not point at. *)
Lemma loop_frame n : forall rp ip sp st o,
  (forall q, (forall i, 0 <= i < Z.of_nat n -> q <> rp + i * st.1.1) ->
     storage (result (loop f self s n rp ip sp st o)) q = storage (result o) q) /\
  (forall q, (forall i, 0 <= i < Z.of_nat n -> q <> ip + i * st.1.2) ->
     storage (indices (loop f self s n rp ip sp st o)) q = storage (indices o) q).
Proof.
  induction n as [|n IH]; intros rp ip sp st o; simpl; [done|].
  rewrite Hf.
  destruct (IH (rp + st.1.1) (ip + st.1.2) (sp + st.2) st
               (mkOutputs (store (result o) rp (stored (fun k => storage self (sp + k)) s).1)
                          (store (indices o) ip
                                 (IntV (stored (fun k => storage self (sp + k)) s).2))))
    as [IHr IHi].
  simpl in IHr, IHi.
  split; intros q Hq.
  - rewrite IHr by (intros i Hi; specialize (Hq (i + 1) ltac:(lia)); lia).
    specialize (Hq 0 ltac:(lia)).
    destruct (Z.eqb_spec q rp); [lia|done].
  - rewrite IHi by (intros i Hi; specialize (Hq (i + 1) ltac:(lia)); lia).
    specialize (Hq 0 ltac:(lia)).
    destruct (Z.eqb_spec q ip); [lia|done].
Qed.

(** Lane by lane, the loop stores through the pointers it advances. *)
Lemma loop_cells n : forall rp ip sp st o,
  (st.1.1 <> 0 -> forall i, 0 <= i < Z.of_nat n ->
     storage (result (loop f self s n rp ip sp st o)) (rp + i * st.1.1)
     = (stored (lane_at self (sp + i * st.2)) s).1) /\
  (st.1.2 <> 0 -> forall i, 0 <= i < Z.of_nat n ->
     storage (indices (loop f self s n rp ip sp st o)) (ip + i * st.1.2)
     = IntV (stored (lane_at self (sp + i * st.2)) s).2).
Proof.
  induction n as [|n IH]; intros rp ip sp st o; [split; intros; lia|].
  change (loop f self s (S n) rp ip sp st o)
    with (loop f self s n (rp + st.1.1) (ip + st.1.2) (sp + st.2) st
               (f rp ip (lane_at self sp) s o)).
  destruct (IH (rp + st.1.1) (ip + st.1.2) (sp + st.2) st
               (f rp ip (lane_at self sp) s o)) as [IHr IHi].
  rewrite Hf in IHr, IHi |- *.
  destruct (loop_frame n (rp + st.1.1) (ip + st.1.2) (sp + st.2) st
              (mkOutputs (store (result o) rp (stored (lane_at self sp) s).1)
                         (store (indices o) ip (IntV (stored (lane_at self sp) s).2))))
    as [Fr Fi].
  simpl in Fr, Fi.
  split; intros Hst i Hi.
  - destruct (Z.eq_dec i 0) as [->|Hne].
    + replace (rp + 0 * st.1.1) with rp by lia.
      replace (sp + 0 * st.2) with sp by lia.
      rewrite Fr by (intros j Hj; nia).
      by rewrite Z.eqb_refl.
    + specialize (IHr Hst (i - 1) ltac:(lia)).
      replace (rp + st.1.1 + (i - 1) * st.1.1) with (rp + i * st.1.1) in IHr by lia.
      replace (sp + st.2 + (i - 1) * st.2) with (sp + i * st.2) in IHr by lia.
      exact IHr.
  - destruct (Z.eq_dec i 0) as [->|Hne].
    + replace (ip + 0 * st.1.2) with ip by lia.
      replace (sp + 0 * st.2) with sp by lia.
      rewrite Fi by (intros j Hj; nia).
      by rewrite Z.eqb_refl.
    + specialize (IHi Hst (i - 1) ltac:(lia)).
      replace (ip + st.1.2 + (i - 1) * st.1.2) with (ip + i * st.1.2) in IHi by lia.
      replace (sp + st.2 + (i - 1) * st.2) with (sp + i * st.2) in IHi by lia.
      exact IHi.
Qed.
End LoopCells.

(** X9. The callback [loop] of compare_base_kernel, run on a chunk of
    [count] lanes with the min (max) lambda: when the result stride of the
    chunk is not zero, the result cell [i] strides after [result_data] holds
    what the lambda stores for the lane [i] strides after [self_data], and
    likewise the index cell when the index stride is not zero; every cell
    the pointers never reach is left as it was. *)
Theorem loop_stores_lane_by_lane (d : Domain) (self_dim_size : Z) (self : Tensor)
    (self_dim_stride : Z) (count : nat) (result_data indice_data self_data : Z)
    (st : Z * Z * Z) (o : Outputs) (i : Z) :
  0 <= i < Z.of_nat count -> st.1.1 <> 0 -> st.1.2 <> 0 ->
  let o_min := loop (min_lambda d self_dim_size) self self_dim_stride count
                    result_data indice_data self_data st o in
  let o_max := loop (max_lambda d self_dim_size) self self_dim_stride count
                    result_data indice_data self_data st o in
  let lane := lane_at self (self_data + i * st.2) in
  storage (result o_min) (result_data + i * st.1.1)
  = (min_stored d self_dim_size lane self_dim_stride).1 /\
  storage (indices o_min) (indice_data + i * st.1.2)
  = IntV (min_stored d self_dim_size lane self_dim_stride).2 /\
  storage (result o_max) (result_data + i * st.1.1)
  = (max_stored d self_dim_size lane self_dim_stride).1 /\
  storage (indices o_max) (indice_data + i * st.1.2)
  = IntV (max_stored d self_dim_size lane self_dim_stride).2 /\
  (forall q, (forall j, 0 <= j < Z.of_nat count -> q <> result_data + j * st.1.1) ->
     storage (result o_min) q = storage (result o) q /\
     storage (result o_max) q = storage (result o) q) /\
  (forall q, (forall j, 0 <= j < Z.of_nat count -> q <> indice_data + j * st.1.2) ->
     storage (indices o_min) q = storage (indices o) q /\
     storage (indices o_max) q = storage (indices o) q).
Proof.
  intros Hi Hr Hx o_min o_max lane.
  destruct (loop_cells _ _ (min_lambda_storing d self_dim_size) self self_dim_stride
              count result_data indice_data self_data st o) as [Cr Ci].
  destruct (loop_cells _ _ (max_lambda_storing d self_dim_size) self self_dim_stride
              count result_data indice_data self_data st o) as [Cr' Ci'].
  destruct (loop_frame _ _ (min_lambda_storing d self_dim_size) self self_dim_stride
              count result_data indice_data self_data st o) as [Fr Fi].
  destruct (loop_frame _ _ (max_lambda_storing d self_dim_size) self self_dim_stride
              count result_data indice_data self_data st o) as [Fr' Fi'].
  repeat split; auto.
Qed.

Lemma loop_stores_lane_by_lane_witness :
  0 <= 1 < Z.of_nat 2 /\
  cells (result (loop (min_lambda int_domain 3) sample_self 1 2 0 0 0 (1, 1, 3)
                      fresh_outputs)) 2 = [IntV 1; IntV 0] /\
  cells (indices (loop (max_lambda int_domain 3) sample_self 1 2 0 0 0 (1, 1, 3)
                       fresh_outputs)) 2 = [IntV 1; IntV 0] /\
  storage (result (loop (min_lambda int_domain 3) sample_self 1 2 0 0 0 (1, 1, 3)
                        fresh_outputs)) (0 + 1 * 1)
  = (min_stored int_domain 3 (lane_at sample_self (0 + 1 * 3)) 1).1.
Proof.
  assert (Hi : 0 <= 1 < Z.of_nat 2) by (simpl; lia).
  split; [exact Hi|]. split; [reflexivity|]. split; [reflexivity|].
  exact (proj1 (loop_stores_lane_by_lane int_domain 3 sample_self 1 2 0 0 0 (1, 1, 3)
                  fresh_outputs 1 Hi ltac:(simpl; lia) ltac:(simpl; lia))).
Defined.

(* ===================================================================== *)
(** ** Further properties of the element-wise kernels *)
(* ===================================================================== *)

(** X13. The two infinity tests split the infinite values: a float is
    infinite exactly when one of [isposinf] and [isneginf] holds, never
    both hold, and each is the other on the negated value. *)
Theorem infinity_predicates_split (x : spec_float) :
  isposinf x || isneginf x = is_inf x /\
  isposinf x && isneginf x = false /\
  isneginf x = isposinf (SFopp x) /\
  isposinf x = isneginf (SFopp x).
Proof.
  unfold isposinf, isneginf, SFeqb.
  destruct x as [[]|[]| |[] m e]; simpl; done.
Qed.

Lemma select_spec_same {T} (cond : list bool) (a : list T) :
  length cond = length a -> select_spec cond a a = a.
Proof.
  revert a. induction cond as [|c cond IH]; intros [|x a] Hlen; simpl in *; try done.
  unfold select_spec in *. simpl. rewrite IH by lia. by destruct c.
Qed.

Lemma select_spec_negb {T} (cond : list bool) (a b : list T) :
  select_spec (negb <$> cond) a b = select_spec cond b a.
Proof.
  unfold select_spec. revert a b.
  induction cond as [|c cond IH]; intros [|x a] [|y b]; simpl; try done.
  rewrite IH. by destruct c.
Qed.

Lemma truthy_complement (bytes : list Z) :
  truthy <$> (complement <$> bytes) = negb <$> (truthy <$> bytes).
Proof.
  rewrite <- !list_fmap_compose. apply list_fmap_ext. intros i z _. simpl.
  unfold truthy, complement. by destruct (Z.eqb_spec z 0).
Qed.

Lemma where_bytes_run dt d bytes a b out :
  AT_DISPATCH_ALL_TYPES_AND_COMPLEX dt = Ok d ->
  where_kernel_impl (where_iter_bytes dt bytes a b out) Byte
  = Ok (set_output (where_iter_bytes dt bytes a b out) (select_spec (truthy <$> bytes) a b)).
Proof.
  intros Hd. unfold where_kernel_impl, where_iter_bytes. simpl. rewrite Hd. simpl.
  unfold cpu_kernel3; simpl. by rewrite map3_bytes.
Qed.

Lemma where_native_run dt d cond a b out :
  AT_DISPATCH_ALL_TYPES_AND_COMPLEX dt = Ok d ->
  where_kernel_impl (where_iter_native dt cond a b out) Bool
  = Ok (set_output (where_iter_native dt cond a b out) (select_spec cond a b)).
Proof.
  intros Hd. unfold where_kernel_impl, where_iter_native. simpl. rewrite Hd. simpl.
  unfold cpu_kernel3; simpl. by rewrite map3_native.
Qed.

(** X14. For a dispatched element type and operands of one length: [where]
    between an input and itself leaves that input as output whatever the
    condition, and [where] on the complemented condition is [where] with
    the two inputs exchanged, in the byte encoding and in the native one. *)
Theorem where_same_and_complement (dt : ScalarType) (d : Domain) (bytes : list Z)
    (cond : list bool) (a b out : list Scalar) :
  AT_DISPATCH_ALL_TYPES_AND_COMPLEX dt = Ok d ->
  length bytes = length a -> length cond = length a ->
  where_kernel_impl (where_iter_bytes dt bytes a a out) Byte
  = Ok (set_output (where_iter_bytes dt bytes a a out) a) /\
  where_kernel_impl (where_iter_native dt cond a a out) Bool
  = Ok (set_output (where_iter_native dt cond a a out) a) /\
  (exists it it',
     where_kernel_impl (where_iter_bytes dt (complement <$> bytes) a b out) Byte = Ok it /\
     where_kernel_impl (where_iter_bytes dt bytes b a out) Byte = Ok it' /\
     output it = output it') /\
  (exists it it',
     where_kernel_impl (where_iter_native dt (negb <$> cond) a b out) Bool = Ok it /\
     where_kernel_impl (where_iter_native dt cond b a out) Bool = Ok it' /\
     output it = output it').
Proof.
  intros Hd Hlen Hlen'.
  rewrite !(where_bytes_run dt d), !(where_native_run dt d) by exact Hd.
  rewrite !select_spec_same by (by rewrite ?length_fmap).
  split; [reflexivity|]. split; [reflexivity|]. split.
  - eexists; eexists. split; [reflexivity|]. split; [reflexivity|]. simpl.
    by rewrite truthy_complement, select_spec_negb.
  - eexists; eexists. split; [reflexivity|]. split; [reflexivity|]. simpl.
    by rewrite select_spec_negb.
Qed.

Lemma where_same_and_complement_witness :
  where_kernel_impl
    (where_iter_bytes Long [1; 0; 255] [IntV 10; IntV 20; IntV 30]
                      [IntV 10; IntV 20; IntV 30] []) Byte
  = Ok (set_output
          (where_iter_bytes Long [1; 0; 255] [IntV 10; IntV 20; IntV 30]
                            [IntV 10; IntV 20; IntV 30] [])
          [IntV 10; IntV 20; IntV 30]).
Proof.
  exact (proj1 (where_same_and_complement Long int_domain [1; 0; 255] [true; false; true]
                  [IntV 10; IntV 20; IntV 30] [IntV 11; IntV 21; IntV 31] []
                  eq_refl eq_refl eq_refl)).
Defined.

(* ===================================================================== *)
(** ** NaN lanes and broadcast lanes *)
(* ===================================================================== *)

(** A bounded search: the first position where a test holds, or none. *)
Lemma first_position (f : Z -> bool) (m : nat) :
  (exists k, 0 <= k < Z.of_nat m /\ f k = true /\ forall j, 0 <= j < k -> f j = false) \/
  (forall j, 0 <= j < Z.of_nat m -> f j = false).
Proof.
  induction m as [|m [(k & Hk & Hfk & Hbefore)|Hnone]].
  - right. intros j Hj. lia.
  - left. exists k. repeat split; try done; lia.
  - destruct (f (Z.of_nat m)) eqn:Hm.
    + left. exists (Z.of_nat m). repeat split; try done; lia.
    + right. intros j Hj. destruct (Z.eq_dec j (Z.of_nat m)) as [->|]; [done|].
      apply Hnone. lia.
Qed.

Lemma float_lane_first_nan n (data : Z -> spec_float) stride :
  (exists i, 0 <= i < n /\ is_nan (elem data stride i) = true) ->
  exists k, first_nan (ops:=float_ops) n data stride k.
Proof.
  intros (i & Hi & Hnan).
  destruct (first_position (fun j => is_nan (elem data stride j)) (Z.to_nat n))
    as [(k & Hk & Hfk & Hbefore)|Hnone].
  - exists k. repeat split; try done; lia.
  - rewrite Hnone in Hnan by lia. done.
Qed.

(** X15. In a floating lane of extent at least 1, the value the min lambda
    stores is NaN exactly when the lane holds a NaN, and likewise for the
    max lambda; so min and max are NaN together. *)
Theorem float_result_nan_iff (n : Z) (data : Z -> spec_float) (stride : Z) :
  1 <= n ->
  (is_nan (min_lane n data stride).1 = true
   <-> exists i, 0 <= i < n /\ is_nan (elem data stride i) = true) /\
  (is_nan (max_lane n data stride).1 = true
   <-> exists i, 0 <= i < n /\ is_nan (elem data stride i) = true).
Proof.
  intros Hn.
  assert (Hpoison : (exists i, 0 <= i < n /\ is_nan (elem data stride i) = true) ->
                    is_nan (min_lane n data stride).1 = true /\
                    is_nan (max_lane n data stride).1 = true).
  { intros Hex. destruct (float_lane_first_nan n data stride Hex) as [k Hk].
    assert (Hnan : is_nan (elem data stride k) = true) by apply Hk.
    destruct (unordered_nan_poisons float_ops n data stride k Hk) as (-> & -> & _).
    - intros x. simpl. by apply SFleb_nan_key_r.
    - intros x. simpl. by apply SFleb_nan_key_l.
    - done. }
  split; split.
  - intros Hr. exists (min_lane n data stride).2. split.
    + by apply min_lane_index.
    + by rewrite <- min_lane_value_at.
  - intros Hex. by apply Hpoison.
  - intros Hr. exists (max_lane n data stride).2. split.
    + rewrite max_lane_dual. by apply (min_lane_index (ops:=dual_ops float_ops)).
    + rewrite max_lane_dual in Hr |- *.
      by rewrite <- (min_lane_value_at (ops:=dual_ops float_ops)).
  - intros Hex. by apply Hpoison.
Qed.

Lemma float_result_nan_iff_witness :
  1 <= 3 /\
  (exists i, 0 <= i < 3 /\ is_nan (elem lane_3_nan_1 1 i) = true) /\
  is_nan (min_lane 3 lane_3_nan_1 1).1 = true.
Proof.
  assert (Hn : 1 <= 3) by lia.
  assert (Hex : exists i, 0 <= i < 3 /\ is_nan (elem lane_3_nan_1 1 i) = true).
  { exists 1. split; [lia|reflexivity]. }
  split; [exact Hn|]. split; [exact Hex|].
  exact (proj2 (proj1 (float_result_nan_iff 3 lane_3_nan_1 1 Hn)) Hex).
Defined.

(** With stride 0 every position reads [self_data[0]]: the loop started on
    that element never moves on to a later index. *)
Lemma min_loop_stride_0 {T V} (ops : ScalarOps T V) (laws : ScalarLaws T V)
    (data : Z -> T) fuel : forall i,
  (i = 0 \/ geb (zabs (data 0)) (zabs (data 0)) = true) ->
  min_loop data 0 fuel i (data 0) 0 = (data 0, 0).
Proof.
  induction fuel as [|fuel IH]; intros i Hi; simpl; [done|].
  rewrite Z.mul_0_r.
  destruct (geb (zabs (data 0)) (zabs (data 0))) eqn:Hord; simpl.
  - apply IH. by right.
  - destruct Hi as [->|Hi]; [|done].
    destruct (_isnan (data 0)) eqn:Hnan; [done|].
    pose proof (nonnan_ordered _ Hnan) as Ho. unfold ordered in Ho. congruence.
Qed.

(** X16. On a broadcast lane (axis stride 0, every position reading the
    same element) the min and max lambdas store that element and index 0,
    for every extent and whether or not the element is NaN, in any domain
    satisfying the order laws. *)
Theorem broadcast_lane_first_position {T V} (ops : ScalarOps T V) (laws : ScalarLaws T V)
    (n : Z) (data : Z -> T) :
  min_lane n data 0 = (data 0, 0) /\ max_lane n data 0 = (data 0, 0).
Proof.
  split.
  - unfold min_lane. apply min_loop_stride_0; [done|by left].
  - rewrite max_lane_dual. unfold min_lane.
    apply (min_loop_stride_0 (dual_ops ops) (dual_laws ops laws)). by left.
Qed.

Lemma broadcast_lane_first_position_witness :
  min_lane 4 lane_nan 0 = (S754_nan, 0) /\ max_lane 4 lane_3_1_1 0 = (double_of_Z 3, 0).
Proof.
  split.
  - exact (proj1 (broadcast_lane_first_position float_ops float_laws 4 lane_nan)).
  - exact (proj2 (broadcast_lane_first_position float_ops float_laws 4 lane_3_1_1)).
Defined.
